(** * Verification of segmenta_kml.py

    Shallow embedding of [segmenta_kml.py], which splits a KML document into
    one KML document per Placemark.

    - Python strings are sequences of Unicode code points: [ustr := list N].
    - Python's Unicode character database enters as two parameters:
      [py_isalnum] (str.isalnum on one code point, which is also what the
      regular expression class \w tests besides the underscore) and
      [char_upper] (the full upper-case mapping of one code point used by
      str.upper).  Whitespace ([str.isspace], also the class \s) is the
      fixed list of code points CPython uses and is written out.
    - ElementTree elements are trees of [element]; in the orchestrator they
      live in a mutable store of nodes addressed by location, as Python
      objects do. *)

From Stdlib Require Import List Arith NArith String Ascii Bool Lia.
Import ListNotations.

(** ** Unicode strings *)

Definition ustr := list N.

(** ASCII literal to code points. *)
Fixpoint u (s : string) : ustr :=
  match s with
  | EmptyString => []
  | String a s' => N_of_ascii a :: u s'
  end.

Definition ueqb (a b : ustr) : bool :=
  if list_eq_dec N.eq_dec a b then true else false.

Definition is_nil {A} (l : list A) : bool :=
  match l with [] => true | _ => false end.

(** CPython's [Py_UNICODE_ISSPACE]: the characters for which [str.isspace]
    holds and which the regular expression class \s matches. *)
Definition py_isspace (c : N) : bool :=
  ((9 <=? c) && (c <=? 13))%N || ((28 <=? c) && (c <=? 31))%N
  || (c =? 32)%N || (c =? 133)%N || (c =? 160)%N || (c =? 5760)%N
  || ((8192 <=? c) && (c <=? 8202))%N || (c =? 8232)%N || (c =? 8233)%N
  || (c =? 8239)%N || (c =? 8287)%N || (c =? 12288)%N.

Fixpoint lstrip (s : ustr) : ustr :=
  match s with
  | [] => []
  | c :: s' => if py_isspace c then lstrip s' else s
  end.

(** [str.strip()] *)
Definition py_strip (s : ustr) : ustr := rev (lstrip (rev (lstrip s))).

(** [x or ""] for an optional string. *)
Definition or_empty (o : option ustr) : ustr :=
  match o with Some s => s | None => [] end.

Definition underscore : N := 95.
Definition hyphen : N := 45.
Definition period : N := 46.

(** ASCII letters and digits: [str.isalnum] holds on them. *)
Definition ascii_alnum (c : N) : bool :=
  ((48 <=? c) && (c <=? 57))%N || ((65 <=? c) && (c <=? 90))%N
  || ((97 <=? c) && (c <=? 122))%N.

Section Unicode.

Variable py_isalnum : N -> bool.
Variable char_upper : N -> ustr.

(** [str.upper()] *)
Definition py_upper (s : ustr) : ustr := flat_map char_upper s.

(** ** sanitize_filename *)

(** The class \w of a [str] pattern: alphanumeric or underscore. *)
Definition is_word (c : N) : bool := py_isalnum c || (c =? underscore)%N.

(** [re.sub(r"[^\w\s\-\.]", "_", name, flags=re.UNICODE)] *)
Definition sub_disallowed (s : ustr) : ustr :=
  map (fun c => if is_word c || py_isspace c || (c =? hyphen)%N || (c =? period)%N
                then c else underscore) s.

(** [re.sub(r"\s+", "_", name)]: every maximal run of whitespace becomes
    one underscore; [in_run] records that the previous character was
    whitespace. *)
Fixpoint sub_spaces (in_run : bool) (s : ustr) : ustr :=
  match s with
  | [] => []
  | c :: s' =>
      if py_isspace c
      then (if in_run then sub_spaces true s' else underscore :: sub_spaces true s')
      else c :: sub_spaces false s'
  end.

Definition sanitize_filename (name : ustr) : ustr :=
  let name := py_strip name in
  let name := sub_disallowed name in
  let name := sub_spaces false name in
  match firstn 180 name with
  | [] => u "setor"
  | r => r
  end.

End Unicode.

(** Instances of the character database that agree with Python on ASCII
    (code points below 128); used to run the definitions on ASCII inputs. *)
Definition ascii_isalnum (c : N) : bool := ascii_alnum c.
Definition ascii_upper (c : N) : ustr :=
  if ((97 <=? c) && (c <=? 122))%N then [(c - 32)%N] else [c].

(** ** ElementTree elements as values *)

(** An [xml.etree.ElementTree.Element]: tag in Clark notation
    ([{uri}local]), attributes, [text], [tail] and children. *)
Inductive element : Type :=
| Element (tag : ustr) (attrib : list (ustr * ustr)) (text : option ustr)
          (tail : option ustr) (children : list element).

Definition tag (e : element) : ustr := let (t, _, _, _, _) := e in t.
Definition attrib (e : element) := let (_, a, _, _, _) := e in a.
Definition text (e : element) : option ustr := let (_, _, x, _, _) := e in x.
Definition tail (e : element) : option ustr := let (_, _, _, y, _) := e in y.
Definition children (e : element) : list element := let (_, _, _, _, c) := e in c.

(** [Element.iter()]: the element and all its descendants, document order. *)
Fixpoint iter (e : element) : list element :=
  match e with
  | Element _ _ _ _ cs => e :: flat_map iter cs
  end.

(** [.//*]: descendants strictly below [e]. *)
Definition descendants (e : element) : list element := flat_map iter (children e).

Definition has_tag (t : ustr) (e : element) : bool := ueqb (tag e) t.

(** [NS["kml"]] and the qualified name [kml:local]. *)
Definition kml_uri : string := "http://www.opengis.net/kml/2.2".
Definition kml (local : string) : ustr := u ("{" ++ kml_uri ++ "}" ++ local)%string.

(** [e.find("kml:t", NS)]: first child with tag [t]. *)
Definition find_child (t : ustr) (e : element) : option element :=
  find (has_tag t) (children e).

(** [e.findall(".//kml:t", NS)] and [e.find(".//kml:t", NS)]. *)
Definition findall_desc (t : ustr) (e : element) : list element :=
  filter (has_tag t) (descendants e).
Definition find_desc (t : ustr) (e : element) : option element :=
  find (has_tag t) (descendants e).

(** [e.find(".//kml:a/kml:b", NS)]: first [b] child of a descendant [a]. *)
Definition find_desc_child (a b : ustr) (e : element) : option element :=
  find (has_tag b) (flat_map children (findall_desc a e)).

(** [e.get(k)] *)
Definition get_attr (k : ustr) (e : element) : option ustr :=
  option_map snd (find (fun p => ueqb (fst p) k) (attrib e)).

(** ** has_geometry *)

Definition has_geometry (pm : element) : bool :=
  existsb (fun o : option element => if o then true else false) [
    find_desc (kml "Polygon") pm;
    find_desc_child (kml "MultiGeometry") (kml "Polygon") pm;
    find_desc_child (kml "MultiGeometry") (kml "LineString") pm;
    find_desc_child (kml "MultiGeometry") (kml "Point") pm;
    find_desc (kml "LineString") pm;
    find_desc (kml "Point") pm ].

(** ** preferred_name *)

Definition preferred_keys : list ustr :=
  map u ["CD_GEOCODI"; "CD_GEOCOD"; "SETOR"; "SETOR_CENSITARIO";
         "NOME"; "NAME"; "NM_SETOR"; "CD_SETOR"; "GEOCODIGO"; "CODIGO"]%string.

(** [key in preferred_keys] *)
Definition in_preferred_keys (k : ustr) : bool := existsb (ueqb k) preferred_keys.

Section Names.

Variable char_upper : N -> ustr.

(** [val] of a [<Data>] entry:
    [val_el.text.strip() if (val_el is not None and val_el.text) else ""]. *)
Definition data_value (data : element) : ustr :=
  match find_child (kml "value") data with
  | Some val_el =>
      match text val_el with
      | Some t => if is_nil t then [] else py_strip t
      | None => []
      end
  | None => []
  end.

(** [key] of a [<Data>] or [<SimpleData>] entry:
    [(x.get("name") or "").upper()]. *)
Definition entry_key (x : element) : ustr :=
  py_upper char_upper (or_empty (get_attr (u "name") x)).

(** The loop over [ext.findall(".//kml:Data", NS)]. *)
Fixpoint first_data_match (datas : list element) : option ustr :=
  match datas with
  | [] => None
  | data :: rest =>
      let key := entry_key data in
      let val := data_value data in
      if in_preferred_keys key && negb (is_nil val) then Some val
      else first_data_match rest
  end.

(** The inner loop over [sd.findall(".//kml:SimpleData", NS)]. *)
Fixpoint first_simple_match (simples : list element) : option ustr :=
  match simples with
  | [] => None
  | simple :: rest =>
      let key := entry_key simple in
      let val := py_strip (or_empty (text simple)) in
      if in_preferred_keys key && negb (is_nil val) then Some val
      else first_simple_match rest
  end.

(** The outer loop over [ext.findall(".//kml:SchemaData", NS)]. *)
Fixpoint first_schema_match (sds : list element) : option ustr :=
  match sds with
  | [] => None
  | sd :: rest =>
      match first_simple_match (findall_desc (kml "SimpleData") sd) with
      | Some v => Some v
      | None => first_schema_match rest
      end
  end.

(** Step 1 of [preferred_name]: the [ExtendedData] lookup. *)
Definition extended_data_name (pm : element) : option ustr :=
  match find_child (kml "ExtendedData") pm with
  | Some ext =>
      match first_data_match (findall_desc (kml "Data") ext) with
      | Some v => Some v
      | None => first_schema_match (findall_desc (kml "SchemaData") ext)
      end
  | None => None
  end.

Definition preferred_name (pm : element) : ustr :=
  match extended_data_name pm with
  | Some v => v
  | None =>
      match find_child (kml "name") pm with
      | Some name_el =>
          match text name_el with
          | Some t => if is_nil t then u "setor" else py_strip t
          | None => u "setor"
          end
      | None => u "setor"
      end
  end.

End Names.

(** ** Label of the Output Fragment, on values

    Lines 113-116 of [segment_kml] on a tree value: the first [kml:name]
    child gets [text = name]; without one, a new [kml:name] child is
    appended ([ET.SubElement]) and gets [text = name]. *)

Definition set_text_e (v : option ustr) (e : element) : element :=
  match e with Element t a _ y cs => Element t a v y cs end.

Fixpoint set_first_text (t : ustr) (v : option ustr) (cs : list element)
  : option (list element) :=
  match cs with
  | [] => None
  | c :: cs' =>
      if has_tag t c then Some (set_text_e v c :: cs')
      else option_map (cons c) (set_first_text t v cs')
  end.

Definition set_label (name : ustr) (e : element) : element :=
  match e with
  | Element t a x y cs =>
      match set_first_text (kml "name") (Some name) cs with
      | Some cs' => Element t a x y cs'
      | None => Element t a x y (cs ++ [Element (kml "name") [] (Some name) None []])
      end
  end.

(** ** Document wrapper *)

Definition nl : ustr := [10%N].
Definition dq : ustr := [34%N].
(** An ASCII string between double quotes. *)
Definition quoted (s : string) : ustr := dq ++ u s ++ dq.

Definition kml_header : ustr :=
  u "<?xml version=" ++ quoted "1.0" ++ u " encoding=" ++ quoted "UTF-8" ++ u "?>" ++ nl
  ++ u "<kml xmlns=" ++ quoted "http://www.opengis.net/kml/2.2"
  ++ u " xmlns:gx=" ++ quoted "http://www.google.com/kml/ext/2.2"
  ++ u " xmlns:kml=" ++ quoted "http://www.opengis.net/kml/2.2"
  ++ u " xmlns:atom=" ++ quoted "http://www.w3.org/2005/Atom" ++ u ">" ++ nl.

(** [f"{kml_header()}<Document>\n{inner}\n</Document>\n</kml>\n"] *)
Definition wrap_document (inner : ustr) : ustr :=
  kml_header ++ u "<Document>" ++ nl ++ inner ++ nl ++ u "</Document>" ++ nl
  ++ u "</kml>" ++ nl.

(** ElementTree writes an empty [text] or [tail] as nothing, so its
    parser reads it back as absent. *)
Definition drop_empty (o : option ustr) : option ustr :=
  match o with Some [] => None | _ => o end.

(** The tree ElementTree's parser builds back from the serialization of
    [e]: every empty [text] and [tail] becomes [None]. *)
Fixpoint et_readback (e : element) : element :=
  match e with
  | Element t a x y cs => Element t a (drop_empty x) (drop_empty y) (map et_readback cs)
  end.

Definition set_tail (y : option ustr) (e : element) : element :=
  match e with Element t a x _ cs => Element t a x y cs end.

(** The tree ElementTree's parser builds from [wrap_document s] when [s]
    is the serialization of [f] ([ET.tostring] writes [f]'s tail after
    it): [<kml>] with text "\n" holding one [<Document>] with text and
    tail "\n" holding [f] read back, whose tail is [f]'s tail followed by
    the "\n" of the wrapper. *)
Definition kml_document (f : element) : element :=
  Element (kml "kml") [] (Some nl) None
    [Element (kml "Document") [] (Some nl) (Some nl)
       [set_tail (Some (or_empty (tail f) ++ nl)) (et_readback f)]].

(** ** The object store

    ElementTree elements are mutable Python objects.  They are nodes of a
    store addressed by location; a node lists the locations of its
    children. *)

Record node : Type := mk_node {
  n_tag : ustr;
  n_attrib : list (ustr * ustr);
  n_text : option ustr;
  n_tail : option ustr;
  n_kids : list nat
}.

Definition heap := list node.

Fixpoint omap {A B} (f : A -> option B) (l : list A) : option (list B) :=
  match l with
  | [] => Some []
  | x :: l' =>
      match f x with
      | Some y => match omap f l' with Some ys => Some (y :: ys) | None => None end
      | None => None
      end
  end.

(** The tree value of the node at [l] (what [ET.tostring] reads). *)
Fixpoint read_fuel (fuel : nat) (h : heap) (l : nat) : option element :=
  match fuel with
  | O => None
  | S f =>
      match nth_error h l with
      | Some n =>
          match omap (read_fuel f h) (n_kids n) with
          | Some cs => Some (Element (n_tag n) (n_attrib n) (n_text n) (n_tail n) cs)
          | None => None
          end
      | None => None
      end
  end.

Definition read_tree (h : heap) (l : nat) : option element :=
  read_fuel (S (List.length h)) h l.

(** [Element.iter()] on locations. *)
Fixpoint iter_locs (fuel : nat) (h : heap) (l : nat) : list nat :=
  match fuel with
  | O => []
  | S f =>
      match nth_error h l with
      | Some n => l :: flat_map (iter_locs f h) (n_kids n)
      | None => []
      end
  end.

Definition node_has_tag (h : heap) (t : ustr) (l : nat) : bool :=
  match nth_error h l with Some n => ueqb (n_tag n) t | None => false end.

(** Building a tree value as fresh nodes, children before their parent
    (what the parser does for [ET.parse] and [ET.fromstring]). *)
Section AllocKids.

Variable alloc_one : element -> heap -> nat * heap.

(** The children, in order, each with [alloc_one]. *)
Fixpoint alloc_kids (cs : list element) (h : heap) : list nat * heap :=
  match cs with
  | [] => ([], h)
  | c :: cs' =>
      let (l, h1) := alloc_one c h in
      let (ls, h2) := alloc_kids cs' h1 in
      (l :: ls, h2)
  end.

End AllocKids.

Fixpoint alloc_tree (e : element) (h : heap) : nat * heap :=
  match e with
  | Element t a x y cs =>
      let (ls, h') := alloc_kids alloc_tree cs h in
      (List.length h', h' ++ [mk_node t a x y ls])
  end.

Fixpoint upd {A} (l : list A) (i : nat) (x : A) : list A :=
  match l, i with
  | [], _ => []
  | _ :: l', O => x :: l'
  | y :: l', S i' => y :: upd l' i' x
  end.

(** ** The file system and the run's state *)

Record world : Type := mk_world {
  w_heap : heap;
  w_files : list (ustr * ustr);   (* path, contents *)
  w_dirs : list ustr
}.

Definition lookup_file (p : ustr) (fs : list (ustr * ustr)) : option ustr :=
  option_map snd (find (fun q => ueqb (fst q) p) fs).

Definition is_dir (w : world) (p : ustr) : bool := existsb (ueqb p) (w_dirs w).
Definition is_file (w : world) (p : ustr) : bool :=
  if lookup_file p (w_files w) then true else false.

Definition slash : N := 47.

(** The directories [os.makedirs(p)] creates: every prefix of [p] that
    ends before a [/], then [p]. *)
Fixpoint slash_prefixes (acc s : ustr) : list ustr :=
  match s with
  | [] => []
  | c :: s' =>
      if (c =? slash)%N
      then (if is_nil acc then [] else [acc]) ++ slash_prefixes (acc ++ [c]) s'
      else slash_prefixes (acc ++ [c]) s'
  end.

Definition dir_chain (p : ustr) : list ustr := slash_prefixes [] p ++ [p].

(** [os.path.join(a, b)] *)
Definition path_join (a b : ustr) : ustr :=
  match b with
  | c :: _ => if (c =? slash)%N then b else
      if is_nil a then b else
      if (last a 0 =? slash)%N then a ++ b else a ++ [slash] ++ b
  | [] => if is_nil a then [] else if (last a 0 =? slash)%N then a else a ++ [slash]
  end.

Inductive py_error : Type :=
| FileNotFoundError
| ParseError        (* xml.etree.ElementTree.ParseError *)
| OSError           (* other OSError: exists as file / directory *)
| Unreachable.      (* reading a node not in the store; never raised *)

Inductive outcome (A : Type) : Type :=
| Ok (a : A)
| Raise (e : py_error).
Arguments Ok {A} a.
Arguments Raise {A} e.

(** A state and exception monad: the state survives an exception, as files
    already written stay on disk. *)
Definition M (A : Type) : Type := world -> outcome A * world.

Definition ret {A} (a : A) : M A := fun w => (Ok a, w).
Definition raise {A} (e : py_error) : M A := fun w => (Raise e, w).
Definition bind {A B} (m : M A) (k : A -> M B) : M B :=
  fun w => match m w with
           | (Ok a, w') => k a w'
           | (Raise e, w') => (Raise e, w')
           end.

Notation "x <- m ;; k" := (bind m (fun x => k))
  (at level 61, m at next level, right associativity).
Notation "m ;;; k" := (bind m (fun _ => k))
  (at level 61, right associativity).

Definition get : M world := fun w => (Ok w, w).
Definition put (w : world) : M unit := fun _ => (Ok tt, w).

Definition set_heap (h : heap) (w : world) : world :=
  mk_world h (w_files w) (w_dirs w).

(** [os.path.exists(p)] *)
Definition path_exists (p : ustr) : M bool :=
  fun w => (Ok (is_file w p || is_dir w p), w).

(** [os.makedirs(p, exist_ok=True)] *)
Definition os_makedirs (p : ustr) : M unit :=
  fun w =>
    if is_nil p then (Raise FileNotFoundError, w)
    else if existsb (is_file w) (dir_chain p) then (Raise OSError, w)
    else (Ok tt, mk_world (w_heap w) (w_files w) (dir_chain p ++ w_dirs w)).

(** [open(p, "w").write(c)]: creates or truncates the file.  Files are
    keyed by the path string the program passes, with no resolution of
    [.], [..], repeated separators or links: the model stands for the file
    system only where two different path strings of a run name two
    different files (for instance, [outdir] does not name the input's
    directory through another spelling). *)
Definition write_file (p c : ustr) : M unit :=
  fun w =>
    if is_dir w p then (Raise OSError, w)
    else (Ok tt, mk_world (w_heap w)
                   ((p, c) :: filter (fun q => negb (ueqb (fst q) p)) (w_files w))
                   (w_dirs w)).

(** Allocating a tree value as fresh nodes; returns the root. *)
Definition alloc (e : element) : M nat :=
  fun w => let (r, h') := alloc_tree e (w_heap w) in (Ok r, set_heap h' w).

(** Reading the tree rooted at a node. *)
Definition read (l : nat) : M element :=
  fun w => match read_tree (w_heap w) l with
           | Some e => (Ok e, w)
           | None => (Raise Unreachable, w)
           end.

(** [root.findall(".//kml:t", NS)]: descendants of [l] (not [l] itself)
    tagged [t], in document order. *)
Definition findall_locs (t : ustr) (l : nat) : M (list nat) :=
  fun w => let h := w_heap w in
           (Ok (filter (node_has_tag h t) (tl (iter_locs (S (List.length h)) h l))), w).

(** [e.find("kml:t", NS)] on a node. *)
Definition find_child_loc (l : nat) (t : ustr) : M (option nat) :=
  fun w => let h := w_heap w in
           match nth_error h l with
           | Some n => (Ok (find (node_has_tag h t) (n_kids n)), w)
           | None => (Raise Unreachable, w)
           end.

(** [ET.SubElement(parent, t)]: a new empty node appended to the parent's
    children. *)
Definition sub_element (parent : nat) (t : ustr) : M nat :=
  fun w => let h := w_heap w in
           match nth_error h parent with
           | Some n =>
               let m := List.length h in
               let h1 := h ++ [mk_node t [] None None []] in
               let n' := mk_node (n_tag n) (n_attrib n) (n_text n) (n_tail n) (n_kids n ++ [m]) in
               (Ok m, set_heap (upd h1 parent n') w)
           | None => (Raise Unreachable, w)
           end.

(** [e.text = v] on a node. *)
Definition set_text (l : nat) (v : option ustr) : M unit :=
  fun w => let h := w_heap w in
           match nth_error h l with
           | Some n =>
               (Ok tt, set_heap (upd h l (mk_node (n_tag n) (n_attrib n) v (n_tail n) (n_kids n))) w)
           | None => (Raise Unreachable, w)
           end.

(** ** segment_kml

    The XML library enters as two parameters: [et_fromstring] is the parser
    ([ET.parse] on a file's contents, [ET.fromstring] on a string; [None]
    is a [ParseError]), [et_tostring] the serializer ([ET.tostring]).  The
    prefixes set by [ET.register_namespace] only configure [et_tostring]. *)

Section Segment.

Variable py_isalnum : N -> bool.
Variable char_upper : N -> ustr.
Variable et_fromstring : ustr -> option element.
Variable et_tostring : element -> ustr.

(** [ET.fromstring(s)]: parse and build fresh nodes. *)
Definition fromstring (s : ustr) : M nat :=
  match et_fromstring s with
  | Some e => alloc e
  | None => raise ParseError
  end.

(** [ET.parse(p).getroot()] *)
Definition et_parse (p : ustr) : M nat :=
  fun w =>
    if is_dir w p then (Raise OSError, w)
    else match lookup_file p (w_files w) with
         | Some c => fromstring c w
         | None => (Raise FileNotFoundError, w)
         end.

(** One iteration of [for pm in placemarks]; [total] is the counter. *)
Definition segment_body (outdir : ustr) (pm : nat) (total : nat) : M nat :=
  pm_e <- read pm ;;
  if negb (has_geometry pm_e) then ret total else
  let name := preferred_name char_upper pm_e in
  let file_name := sanitize_filename py_isalnum name ++ u ".kml" in
  let out_path := path_join outdir file_name in
  pm_copy <- fromstring (et_tostring pm_e) ;;
  found <- find_child_loc pm_copy (kml "name") ;;
  name_copy <- match found with
               | Some l => ret l
               | None => sub_element pm_copy (kml "name")
               end ;;
  set_text name_copy (Some name) ;;;
  pm_str <- read pm_copy ;;
  let kml_final := wrap_document (et_tostring pm_str) in
  write_file out_path kml_final ;;;
  ret (total + 1).

Fixpoint segment_loop (outdir : ustr) (pms : list nat) (total : nat) : M nat :=
  match pms with
  | [] => ret total
  | pm :: rest =>
      total' <- segment_body outdir pm total ;;
      segment_loop outdir rest total'
  end.

Definition segment_kml (input_path outdir : ustr) : M nat :=
  ex <- path_exists input_path ;;
  if negb ex then raise FileNotFoundError else
  os_makedirs outdir ;;;
  root <- et_parse input_path ;;
  placemarks <- findall_locs (kml "Placemark") root ;;
  segment_loop outdir placemarks 0.

(** The Output Document written for a feature value [pm], when the clone
    parses. *)
Definition output_document (pm : element) : option ustr :=
  match et_fromstring (et_tostring pm) with
  | Some pm' => Some (wrap_document (et_tostring (set_label (preferred_name char_upper pm) pm')))
  | None => None
  end.

(** The file an iteration writes for the feature value [e]. *)
Definition out_path_of (outdir : ustr) (e : element) : ustr :=
  path_join outdir (sanitize_filename py_isalnum (preferred_name char_upper e) ++ u ".kml").

(** The effect of one iteration on the outcome and on the files, as a
    function of the feature's tree value [e] and of the directories. *)
Definition body_result (outdir : ustr) (e : element) (total : nat) (dirs : list ustr)
  (files : list (ustr * ustr)) : outcome nat * list (ustr * ustr) :=
  if negb (has_geometry e) then (Ok total, files) else
  let name := preferred_name char_upper e in
  let out_path := out_path_of outdir e in
  match et_fromstring (et_tostring e) with
  | None => (Raise ParseError, files)
  | Some e' =>
      if existsb (ueqb out_path) dirs then (Raise OSError, files)
      else (Ok (total + 1),
            (out_path, wrap_document (et_tostring (set_label name e')))
              :: filter (fun q => negb (ueqb (fst q) out_path)) files)
  end.

(** The effect of the loop over the feature values [es]. *)
Fixpoint loop_result (outdir : ustr) (es : list element) (total : nat) (dirs : list ustr)
  (files : list (ustr * ustr)) : outcome nat * list (ustr * ustr) :=
  match es with
  | [] => (Ok total, files)
  | e :: es' =>
      match body_result outdir e total dirs files with
      | (Ok t', files') => loop_result outdir es' t' dirs files'
      | (Raise x, files') => (Raise x, files')
      end
  end.

End Segment.

(** ** A lossless stand-in for the XML library

    Used only to run the definitions on concrete inputs: [toy_tostring]
    writes a tree in a length-prefixed code and [toy_fromstring] reads it
    back, also out of a [wrap_document] envelope, which it reads as
    [kml_document]. *)

Definition enc_str (s : ustr) : ustr := N.of_nat (List.length s) :: s.
Definition enc_opt (o : option ustr) : ustr :=
  match o with None => [0%N] | Some s => 1%N :: enc_str s end.

Fixpoint toy_enc (e : element) : ustr :=
  match e with
  | Element t a x y cs =>
      enc_str t ++ N.of_nat (List.length a)
        :: flat_map (fun p => enc_str (fst p) ++ enc_str (snd p)) a
      ++ enc_opt x ++ enc_opt y ++ N.of_nat (List.length cs) :: flat_map toy_enc cs
  end.

Definition dec_str (s : ustr) : option (ustr * ustr) :=
  match s with
  | k :: r => if Nat.leb (N.to_nat k) (List.length r)
              then Some (firstn (N.to_nat k) r, skipn (N.to_nat k) r) else None
  | [] => None
  end.

Definition dec_opt (s : ustr) : option (option ustr * ustr) :=
  match s with
  | 0%N :: r => Some (None, r)
  | 1%N :: r => match dec_str r with Some (v, r') => Some (Some v, r') | None => None end
  | _ => None
  end.

Fixpoint dec_pairs (k : nat) (s : ustr) : option (list (ustr * ustr) * ustr) :=
  match k with
  | O => Some ([], s)
  | S k' =>
      match dec_str s with
      | Some (a, r1) =>
          match dec_str r1 with
          | Some (b, r2) =>
              match dec_pairs k' r2 with
              | Some (ps, r3) => Some ((a, b) :: ps, r3)
              | None => None
              end
          | None => None
          end
      | None => None
      end
  end.

Section DecKids.

Variable dec_one : ustr -> option (element * ustr).

(** [k] children, each read with [dec_one]. *)
Fixpoint dec_kids (k : nat) (s : ustr) : option (list element * ustr) :=
  match k with
  | O => Some ([], s)
  | S k' =>
      match dec_one s with
      | Some (c, r1) =>
          match dec_kids k' r1 with
          | Some (cs, r2) => Some (c :: cs, r2)
          | None => None
          end
      | None => None
      end
  end.

End DecKids.

Fixpoint dec_elem (fuel : nat) (s : ustr) : option (element * ustr) :=
  match fuel with
  | O => None
  | S f =>
      match dec_str s with
      | Some (t, k :: r1) =>
          match dec_pairs (N.to_nat k) r1 with
          | Some (a, r2) =>
              match dec_opt r2 with
              | Some (x, r3) =>
                  match dec_opt r3 with
                  | Some (y, n :: r4) =>
                      match dec_kids (dec_elem f) (N.to_nat n) r4 with
                      | Some (cs, r5) => Some (Element t a x y cs, r5)
                      | None => None
                      end
                  | _ => None
                  end
              | None => None
              end
          | None => None
          end
      | _ => None
      end
  end.

Definition toy_decode (s : ustr) : option element :=
  match dec_elem (S (List.length s)) s with
  | Some (e, []) => Some e
  | _ => None
  end.

(** The serialization starts with a 0, which no [wrap_document] output
    (starting with [<]) does. *)
Definition toy_tostring (e : element) : ustr := 0%N :: toy_enc e.

Fixpoint strip_prefix (p s : ustr) : option ustr :=
  match p, s with
  | [], _ => Some s
  | c :: p', d :: s' => if (c =? d)%N then strip_prefix p' s' else None
  | _, [] => None
  end.

Definition doc_open : ustr := kml_header ++ u "<Document>" ++ nl.
Definition doc_close : ustr := nl ++ u "</Document>" ++ nl ++ u "</kml>" ++ nl.

Definition toy_fromstring (s : ustr) : option element :=
  match s with
  | 0%N :: r => toy_decode r
  | _ =>
      match strip_prefix doc_open s with
      | Some r =>
          match strip_prefix (rev doc_close) (rev r) with
          | Some rest =>
              match rev rest with
              | 0%N :: inner => option_map kml_document (toy_decode inner)
              | _ => None
              end
          | None => None
          end
      | None => None
      end
  end.

(** ** Concrete features *)

Definition mk (local : string) (a : list (ustr * ustr)) (x : option ustr) (cs : list element) :=
  Element (kml local) a x None cs.

Definition data_entry (k v : string) : element :=
  mk "Data" [(u "name", u k)] None [mk "value" [] (Some (u v)) []].

Definition polygon : element := mk "Polygon" [] None [].

(** ** Predicates used in the statements *)

(** A character the sanitizer may output: alphanumeric, [_], [-] or [.]. *)
Definition safe_char (py_isalnum : N -> bool) (c : N) : bool :=
  py_isalnum c || (c =? underscore)%N || (c =? hyphen)%N || (c =? period)%N.

(** A character the first substitution replaces: not \w, \s, [-] or [.]. *)
Definition special_char (py_isalnum : N -> bool) (c : N) : bool :=
  negb (is_word py_isalnum c || py_isspace c || (c =? hyphen)%N || (c =? period)%N).

(** A shape the classifier recognises: a KML Polygon, LineString or Point. *)
Definition is_shape (e : element) : bool :=
  has_tag (kml "Polygon") e || has_tag (kml "LineString") e || has_tag (kml "Point") e.

(** Structural induction on elements, through the list of children. *)
Fixpoint element_ind' (P : element -> Prop)
  (H : forall t a x y cs, Forall P cs -> P (Element t a x y cs)) (e : element) : P e :=
  match e with
  | Element t a x y cs =>
      H t a x y cs
        ((fix go (l : list element) : Forall P l :=
            match l with
            | [] => Forall_nil P
            | c :: l' => Forall_cons c (element_ind' P H c) (go l')
            end) cs)
  end.

(** A [<Data>] entry the loop of [preferred_name] returns on. *)
Definition data_matches (char_upper : N -> ustr) (d : element) : bool :=
  in_preferred_keys (entry_key char_upper d) && negb (is_nil (data_value d)).

(** A [<Data>] entry without a [name] attribute, without a [<value>]
    child, or whose value text is missing, empty or whitespace. *)
Definition malformed_data (d : element) : Prop :=
  get_attr (u "name") d = None \/ find_child (kml "value") d = None \/
  (exists v, find_child (kml "value") d = Some v /\
             Forall (fun c => py_isspace c = true) (or_empty (text v))).

(** A [<SimpleData>] entry without a [name] attribute or whose text is
    missing, empty or whitespace. *)
Definition malformed_simple (s : element) : Prop :=
  get_attr (u "name") s = None \/ Forall (fun c => py_isspace c = true) (or_empty (text s)).

(** Features used as concrete inputs. *)
Definition pm_cd_geocodi : element :=
  mk "Placemark" [] None [mk "name" [] (Some (u "Setor X")) [];
    mk "ExtendedData" [] None [data_entry "CD_GEOCODI" "355030822"]; polygon].

Definition simple_setor : element :=
  mk "SimpleData" [(u "name", u "SETOR")] (Some (u "A")) [].

Definition pm_order : element :=
  mk "Placemark" [] None [mk "name" [] (Some (u "Setor X")) [];
    mk "ExtendedData" [] None
      [mk "SchemaData" [] None [simple_setor]; data_entry "NOME" "B"];
    polygon].

Definition pm_blank_label : element :=
  mk "Placemark" [] None [mk "name" [] (Some (u "   ")) []; mk "Point" [] None []].

Definition pm_nested : element :=
  mk "Placemark" [] None
    [mk "MultiGeometry" [] None [mk "MultiGeometry" [] None [polygon]]].

(** A Placemark holding another Placemark. *)
Definition pm_outer : element :=
  mk "Placemark" [] None
    [mk "name" [] (Some (u "A")) []; mk "Placemark" [] None [mk "Point" [] None []]].

(** Two Placemarks with the same label, and a source holding both. *)
Definition pm_a : element :=
  mk "Placemark" [] None [mk "name" [] (Some (u "001")) []; mk "Point" [] None []].

Definition pm_b : element :=
  mk "Placemark" [] None [mk "name" [] (Some (u "001")) []; polygon].

Definition doc_collision : element :=
  mk "kml" [] None [mk "Document" [] None [pm_a; pm_b]].

(** Malformed metadata entries. *)
Definition data_no_name : element :=
  mk "Data" [] None [mk "value" [] (Some (u "X")) []].

Definition simple_blank : element :=
  mk "SimpleData" [(u "name", u "SETOR")] (Some (u "  ")) [].

(** Worlds: the source file present, no file at all, a file that does
    not parse. *)
Definition world_collision : world :=
  mk_world [] [(u "in.kml", toy_tostring doc_collision)] [].

Definition world_empty : world := mk_world [] [] [].

Definition world_bad : world := mk_world [] [(u "in.kml", u "<kml")] [].

(** The input path names a directory. *)
Definition world_dir : world := mk_world [] [] [u "in"].

(** A source whose only Placemark has no geometry. *)
Definition doc_nogeo : element :=
  mk "kml" [] None [mk "Document" [] None
    [mk "Placemark" [] None [mk "name" [] (Some (u "x")) []]]].

Definition world_nogeo : world :=
  mk_world [] [(u "in.kml", toy_tostring doc_nogeo)] [].

(** ** Shapes of the store *)

Fixpoint depth (e : element) : nat :=
  match e with
  | Element _ _ _ _ cs => S (list_max (map depth cs))
  end.

Definition strip_tail (e : element) : element :=
  match e with Element t a x _ cs => Element t a x None cs end.

(** Every node present in [h1] is present, unchanged, in [h2]. *)
Definition store_incl (h1 h2 : heap) : Prop :=
  forall i n, nth_error h1 i = Some n -> nth_error h2 i = Some n.

(** [node_alloc h s l e]: the tree [e] is stored in locations [s..l], its
    root at [l], each node after its children;
    [kids_alloc h s cs ks e]: the trees [cs] are stored one after the other
    in locations [s..e-1], their roots at [ks]. *)
Inductive node_alloc (h : heap) : nat -> nat -> element -> Prop :=
| na_intro s l t a x y cs ks :
    nth_error h l = Some (mk_node t a x y ks) ->
    kids_alloc h s cs ks l ->
    node_alloc h s l (Element t a x y cs)
with kids_alloc (h : heap) : nat -> list element -> list nat -> nat -> Prop :=
| ka_nil s : kids_alloc h s [] [] s
| ka_cons s c cs l ls e :
    node_alloc h s l c ->
    kids_alloc h (S l) cs ls e ->
    kids_alloc h s (c :: cs) (l :: ls) e.

Scheme node_alloc_mut := Induction for node_alloc Sort Prop
with kids_alloc_mut := Induction for kids_alloc Sort Prop.
Combined Scheme alloc_mutind from node_alloc_mut, kids_alloc_mut.

(** * Proofs *)

Lemma ueqb_spec (a b : ustr) : ueqb a b = true <-> a = b.
Proof. unfold ueqb. destruct (list_eq_dec N.eq_dec a b); split; congruence. Qed.

Lemma ueqb_refl (a : ustr) : ueqb a a = true.
Proof. apply ueqb_spec. reflexivity. Qed.

Lemma Forall_firstn_gen {A} (P : A -> Prop) (n : nat) (l : list A) :
  Forall P l -> Forall P (firstn n l).
Proof.
  revert l. induction n as [|n IH]; intros [|x l] H; simpl; auto.
  inversion H; subst. constructor; auto.
Qed.

Lemma firstn_repeat_min {A} (x : A) (k n : nat) :
  firstn k (repeat x n) = repeat x (Nat.min k n).
Proof.
  revert n. induction k as [|k IH]; intros [|n]; simpl; auto. now rewrite IH.
Qed.

Section SanitizeProofs.

Variable py_isalnum : N -> bool.

Lemma lstrip_all_space (s : ustr) :
  Forall (fun c => py_isspace c = true) s -> lstrip s = [].
Proof. induction 1 as [|c s Hc _ IH]; simpl; [reflexivity | now rewrite Hc]. Qed.

Lemma py_strip_all_space (s : ustr) :
  Forall (fun c => py_isspace c = true) s -> py_strip s = [].
Proof. intro H. unfold py_strip. now rewrite (lstrip_all_space s H). Qed.

Lemma lstrip_no_space (s : ustr) :
  Forall (fun c => py_isspace c = false) s -> lstrip s = s.
Proof. intros [|c s' Hc _]; simpl; [reflexivity | now rewrite Hc]. Qed.

Lemma py_strip_no_space (s : ustr) :
  Forall (fun c => py_isspace c = false) s -> py_strip s = s.
Proof.
  intro H. unfold py_strip. rewrite (lstrip_no_space s H).
  rewrite (lstrip_no_space (rev s)) by now apply Forall_rev.
  apply rev_involutive.
Qed.

Lemma sub_disallowed_kept (s : ustr) :
  Forall (fun c => is_word py_isalnum c || py_isspace c || (c =? hyphen)%N
                   || (c =? period)%N = true) (sub_disallowed py_isalnum s).
Proof.
  induction s as [|c s IH]; simpl; constructor; auto.
  destruct (is_word py_isalnum c || py_isspace c || (c =? hyphen)%N || (c =? period)%N) eqn:E;
    [exact E |].
  unfold is_word. rewrite N.eqb_refl, orb_true_r. reflexivity.
Qed.

Lemma sub_spaces_safe (b : bool) (s : ustr) :
  Forall (fun c => is_word py_isalnum c || py_isspace c || (c =? hyphen)%N
                   || (c =? period)%N = true) s ->
  Forall (fun c => safe_char py_isalnum c = true) (sub_spaces b s).
Proof.
  intro H. revert b. induction H as [|c s Hc _ IH]; intros b; simpl; [constructor |].
  destruct (py_isspace c) eqn:Sp.
  - destruct b; [apply IH | constructor; [| apply IH]].
    unfold safe_char. rewrite N.eqb_refl, orb_true_r. reflexivity.
  - constructor; [| apply IH].
    unfold safe_char. unfold is_word in Hc. rewrite ?Sp, ?orb_false_r in Hc. exact Hc.
Qed.

Lemma sub_disallowed_special (s : ustr) :
  Forall (fun c => special_char py_isalnum c = true) s ->
  sub_disallowed py_isalnum s = repeat underscore (List.length s).
Proof.
  induction 1 as [|c s Hc _ IH]; simpl; [reflexivity |].
  unfold special_char in Hc. apply negb_true_iff in Hc. rewrite Hc, IH. reflexivity.
Qed.

Lemma sub_spaces_underscores (b : bool) (n : nat) :
  sub_spaces b (repeat underscore n) = repeat underscore n.
Proof. revert b. induction n as [|n IH]; intros b; simpl; [reflexivity | now rewrite IH]. Qed.

Lemma special_not_space (c : N) :
  special_char py_isalnum c = true -> py_isspace c = false.
Proof.
  unfold special_char. intro H. apply negb_true_iff in H.
  destruct (py_isspace c); [now rewrite orb_true_r in H |]. reflexivity.
Qed.

End SanitizeProofs.

(** C3 (corrected): [sanitize_filename] outputs only alphanumerics, [_],
    [-] and [.], at most 180 characters and never the empty string; empty
    and whitespace-only inputs give "setor", while a non-empty input made
    only of replaced special characters gives one underscore per
    character (at most 180), not "setor". *)
Theorem sanitize_filename_spec (py_isalnum : N -> bool)
  (Halnum : forall c, ascii_alnum c = true -> py_isalnum c = true) (s : ustr) :
  Forall (fun c => safe_char py_isalnum c = true) (sanitize_filename py_isalnum s)
  /\ List.length (sanitize_filename py_isalnum s) <= 180
  /\ sanitize_filename py_isalnum s <> []
  /\ (Forall (fun c => py_isspace c = true) s -> sanitize_filename py_isalnum s = u "setor")
  /\ (s <> [] -> Forall (fun c => special_char py_isalnum c = true) s ->
      sanitize_filename py_isalnum s = repeat underscore (Nat.min 180 (List.length s))).
Proof.
  assert (Hsetor : Forall (fun c => safe_char py_isalnum c = true) (u "setor")).
  { repeat constructor; unfold safe_char; rewrite Halnum by reflexivity; reflexivity. }
  unfold sanitize_filename.
  repeat split.
  - destruct (firstn 180 _) eqn:E; [exact Hsetor |].
    rewrite <- E. apply Forall_firstn_gen, sub_spaces_safe, sub_disallowed_kept.
  - destruct (firstn 180 _) eqn:E; [simpl; lia |].
    rewrite <- E. apply firstn_le_length.
  - destruct (firstn 180 _); discriminate.
  - intro H. rewrite (py_strip_all_space s H). reflexivity.
  - intros Hne H.
    rewrite py_strip_no_space
      by (eapply Forall_impl; [| exact H]; intros c; apply special_not_space).
    rewrite sub_disallowed_special by exact H.
    rewrite sub_spaces_underscores, firstn_repeat_min.
    destruct s as [|c s]; [congruence |].
    change (Nat.min 180 (List.length (c :: s))) with (S (Nat.min 179 (List.length s))).
    reflexivity.
Qed.

(** Witness for C3 at the input " a  b ". *)
Lemma sanitize_filename_spec_witness :
  (forall c, ascii_alnum c = true -> ascii_isalnum c = true) /\
  sanitize_filename ascii_isalnum (u " a  b ") = u "a_b" /\
  Forall (fun c => safe_char ascii_isalnum c = true) (sanitize_filename ascii_isalnum (u " a  b ")).
Proof.
  split; [intros c H; exact H |]. split; [vm_compute; reflexivity |].
  apply (sanitize_filename_spec ascii_isalnum (fun c H => H) (u " a  b ")).
Defined.

(** Counterexample to C3: "@#!" consists of special characters only, and
    the sanitizer maps it to "___", not to "setor" (the character
    database instance agrees with Python on ASCII). *)
Lemma sanitize_filename_special_counterexample :
  Forall (fun c => special_char ascii_isalnum c = true) (u "@#!") /\
  sanitize_filename ascii_isalnum (u "@#!") = u "___" /\
  sanitize_filename ascii_isalnum (u "@#!") <> u "setor".
Proof. vm_compute. repeat split; repeat constructor; discriminate. Qed.

(** ** Geometry classifier *)

Lemma find_isSome {A} (p : A -> bool) (l : list A) :
  (if find p l then true else false) = existsb p l.
Proof. induction l as [|x l IH]; simpl; [reflexivity |]. destruct (p x); auto. Qed.

Lemma In_iter_self (e : element) : In e (iter e).
Proof. destruct e; simpl; auto. Qed.

Lemma In_iter_child (k d c : element) :
  In d (iter k) -> In c (children d) -> In c (iter k).
Proof.
  revert d c. induction k as [t a x y cs IH] using element_ind'.
  intros d c Hd Hc. simpl in Hd |- *. destruct Hd as [<- | Hd].
  - right. apply in_flat_map. exists c. split; [exact Hc | apply In_iter_self].
  - right. apply in_flat_map in Hd as [k [Hk Hdk]].
    apply in_flat_map. exists k. split; [exact Hk |].
    rewrite Forall_forall in IH. exact (IH k Hk d c Hdk Hc).
Qed.

Lemma In_descendants_child (e d c : element) :
  In d (descendants e) -> In c (children d) -> In c (descendants e).
Proof.
  unfold descendants. intros Hd Hc. apply in_flat_map in Hd as [k [Hk Hdk]].
  apply in_flat_map. exists k. split; [exact Hk | exact (In_iter_child k d c Hdk Hc)].
Qed.

Lemma find_desc_child_sub (a b : ustr) (pm : element) :
  (if find_desc_child a b pm then true else false) = true ->
  (if find_desc b pm then true else false) = true.
Proof.
  unfold find_desc_child, find_desc. rewrite !find_isSome.
  intro H. apply existsb_exists in H as [c [Hc Hb]].
  apply in_flat_map in Hc as [d [Hd Hcd]].
  unfold findall_desc in Hd. apply filter_In in Hd as [Hd _].
  apply existsb_exists. exists c. split; [exact (In_descendants_child pm d c Hd Hcd) | exact Hb].
Qed.

Lemma existsb_orb {A} (f g : A -> bool) (l : list A) :
  existsb (fun x => f x || g x) l = existsb f l || existsb g l.
Proof.
  induction l as [|x l IH]; simpl; [reflexivity |]. rewrite IH.
  destruct (f x), (g x), (existsb f l), (existsb g l); reflexivity.
Qed.

(** C1 (corrected): [has_geometry] holds exactly when some element at any
    depth below the feature is a KML Polygon, LineString or Point; the
    MultiGeometry paths add nothing, and shapes inside nested
    MultiGeometry containers (or anywhere else below the feature) count. *)
Theorem has_geometry_spec (pm : element) :
  has_geometry pm = existsb is_shape (descendants pm).
Proof.
  unfold has_geometry, is_shape. simpl existsb.
  rewrite !existsb_orb.
  pose proof (find_desc_child_sub (kml "MultiGeometry") (kml "Polygon") pm) as H1.
  pose proof (find_desc_child_sub (kml "MultiGeometry") (kml "LineString") pm) as H2.
  pose proof (find_desc_child_sub (kml "MultiGeometry") (kml "Point") pm) as H3.
  unfold find_desc in *. rewrite !find_isSome in *.
  destruct (find_desc_child (kml "MultiGeometry") (kml "Polygon") pm),
           (find_desc_child (kml "MultiGeometry") (kml "LineString") pm),
           (find_desc_child (kml "MultiGeometry") (kml "Point") pm);
  destruct (existsb (has_tag (kml "Polygon")) (descendants pm)),
           (existsb (has_tag (kml "LineString")) (descendants pm)),
           (existsb (has_tag (kml "Point")) (descendants pm));
  simpl in *; try reflexivity;
  try (discriminate (H1 eq_refl)); try (discriminate (H2 eq_refl));
  try (discriminate (H3 eq_refl)).
Qed.

(** Counterexample to C1: a Placemark whose only shape is a Polygon inside
    a MultiGeometry inside a MultiGeometry has no shape directly and no
    MultiGeometry child holding a shape directly, yet is classified as
    having geometry. *)
Lemma has_geometry_nested_counterexample :
  existsb is_shape (children pm_nested) = false /\
  existsb (fun mg => has_tag (kml "MultiGeometry") mg && existsb is_shape (children mg))
    (children pm_nested) = false /\
  has_geometry pm_nested = true.
Proof. vm_compute. repeat split. Qed.

(** ** Name resolver *)

Section NameProofs.

Variable char_upper : N -> ustr.

Lemma first_data_match_skip (pre post : list element) (d : element) :
  data_matches char_upper d = false ->
  first_data_match char_upper (pre ++ d :: post) = first_data_match char_upper (pre ++ post).
Proof.
  intro Hd. induction pre as [|x pre IH]; simpl.
  - unfold data_matches in Hd. rewrite Hd. reflexivity.
  - rewrite IH. reflexivity.
Qed.

Lemma first_data_match_first (pre post : list element) (d : element) :
  Forall (fun x => data_matches char_upper x = false) pre ->
  data_matches char_upper d = true ->
  first_data_match char_upper (pre ++ d :: post) = Some (data_value d).
Proof.
  intros Hpre Hd. induction Hpre as [|x pre Hx _ IH]; simpl.
  - unfold data_matches in Hd. rewrite Hd. reflexivity.
  - unfold data_matches in Hx. rewrite Hx. exact IH.
Qed.

Lemma first_data_match_none (ds : list element) :
  Forall (fun x => data_matches char_upper x = false) ds ->
  first_data_match char_upper ds = None.
Proof.
  induction 1 as [|x ds Hx _ IH]; simpl; [reflexivity |].
  unfold data_matches in Hx. rewrite Hx. exact IH.
Qed.

Lemma in_preferred_keys_nil : in_preferred_keys [] = false.
Proof. vm_compute. reflexivity. Qed.

Lemma entry_key_no_name (x : element) :
  get_attr (u "name") x = None -> entry_key char_upper x = [].
Proof. intro H. unfold entry_key. rewrite H. reflexivity. Qed.

End NameProofs.

(** C2 (code bug): a Placemark with a Point and the label "   " and no
    metadata resolves to the empty string, not to "setor"; its file is
    still named "setor.kml" by the sanitizer. *)
Theorem preferred_name_blank_label (char_upper : N -> ustr) (py_isalnum : N -> bool) :
  has_geometry pm_blank_label = true /\
  preferred_name char_upper pm_blank_label = [] /\
  sanitize_filename py_isalnum (preferred_name char_upper pm_blank_label) = u "setor".
Proof. repeat split; vm_compute; reflexivity. Qed.

(** C5 (corrected): with an ExtendedData block, the first inline [<Data>]
    entry in document order with a preferred key and a non-empty trimmed
    value gives the name, whatever the label and whatever [<SimpleData>]
    entries precede it; the [<SimpleData>] entries of [<SchemaData>] blocks
    are searched only when no [<Data>] entry matches, and then also win
    over the label. *)
Theorem preferred_name_metadata (char_upper : N -> ustr) (pm ext : element)
  (Hext : find_child (kml "ExtendedData") pm = Some ext) :
  (forall pre d post,
     findall_desc (kml "Data") ext = pre ++ d :: post ->
     Forall (fun x => data_matches char_upper x = false) pre ->
     data_matches char_upper d = true ->
     preferred_name char_upper pm = data_value d) /\
  (forall v,
     Forall (fun x => data_matches char_upper x = false) (findall_desc (kml "Data") ext) ->
     first_schema_match char_upper (findall_desc (kml "SchemaData") ext) = Some v ->
     preferred_name char_upper pm = v).
Proof.
  split.
  - intros pre d post Hds Hpre Hd.
    unfold preferred_name, extended_data_name. rewrite Hext, Hds.
    rewrite (first_data_match_first char_upper pre post d Hpre Hd). reflexivity.
  - intros v Hnone Hv.
    unfold preferred_name, extended_data_name. rewrite Hext.
    rewrite (first_data_match_none char_upper _ Hnone), Hv. reflexivity.
Qed.

(** Witness for C5: the Placemark with [CD_GEOCODI = "355030822"] and the
    label "Setor X" resolves to "355030822". *)
Lemma preferred_name_metadata_witness :
  preferred_name ascii_upper pm_cd_geocodi = u "355030822".
Proof.
  refine (proj1 (preferred_name_metadata ascii_upper pm_cd_geocodi
                   (mk "ExtendedData" [] None [data_entry "CD_GEOCODI" "355030822"]) _)
            [] (data_entry "CD_GEOCODI" "355030822") [] _ (Forall_nil _) _);
  vm_compute; reflexivity.
Defined.

(** Counterexample to C5: the first metadata entry in document order with
    a preferred key is a [<SimpleData>] entry "SETOR" = "A", yet the name is
    "B", from the later [<Data>] entry "NOME". *)
Lemma preferred_name_order_counterexample :
  map tag (filter (fun x => has_tag (kml "SimpleData") x || has_tag (kml "Data") x)
             (flat_map descendants (children pm_order)))
    = [kml "SimpleData"; kml "Data"] /\
  first_simple_match ascii_upper [simple_setor] = Some (u "A") /\
  preferred_name ascii_upper pm_order = u "B".
Proof. repeat split; vm_compute; reflexivity. Qed.

(** C10: malformed metadata entries are skipped: removing one from the
    entry list does not change the result of either loop. *)
Theorem malformed_entries_skipped (char_upper : N -> ustr) :
  (forall pre d post, malformed_data d ->
     first_data_match char_upper (pre ++ d :: post) = first_data_match char_upper (pre ++ post)) /\
  (forall pre s post, malformed_simple s ->
     first_simple_match char_upper (pre ++ s :: post) = first_simple_match char_upper (pre ++ post)).
Proof.
  split.
  - intros pre d post Hd. apply first_data_match_skip.
    unfold data_matches.
    destruct Hd as [Hk | [Hv | [v [Hv Hws]]]].
    + rewrite (entry_key_no_name char_upper d Hk), in_preferred_keys_nil. reflexivity.
    + unfold data_value. rewrite Hv. apply andb_false_r.
    + unfold data_value. rewrite Hv.
      destruct (text v) as [t|]; simpl in Hws; [| apply andb_false_r].
      destruct (is_nil t); [apply andb_false_r |].
      rewrite (py_strip_all_space t Hws). apply andb_false_r.
  - intros pre x post Hx. induction pre as [|y pre IH]; simpl.
    + destruct Hx as [Hk | Hws].
      * rewrite (entry_key_no_name char_upper x Hk), in_preferred_keys_nil. reflexivity.
      * rewrite (py_strip_all_space _ Hws), andb_false_r. reflexivity.
    + rewrite IH. reflexivity.
Qed.

(** ** The object store *)

Lemma omap_Some_impl {A B} (f g : A -> option B) (l : list A) (ys : list B) :
  omap f l = Some ys ->
  (forall x y, In x l -> f x = Some y -> g x = Some y) ->
  omap g l = Some ys.
Proof.
  revert ys. induction l as [|x l IH]; intros ys Hf Hfg; simpl in *.
  - exact Hf.
  - destruct (f x) as [y|] eqn:Ex; [|discriminate].
    destruct (omap f l) as [ys'|] eqn:El; [|discriminate].
    injection Hf as <-.
    rewrite (Hfg x y (or_introl eq_refl) Ex).
    rewrite (IH ys' eq_refl (fun x' y' Hi => Hfg x' y' (or_intror Hi))).
    reflexivity.
Qed.

Lemma omap_app {A B} (f : A -> option B) (l1 l2 : list A) ys1 ys2 :
  omap f l1 = Some ys1 -> omap f l2 = Some ys2 -> omap f (l1 ++ l2) = Some (ys1 ++ ys2).
Proof.
  revert ys1. induction l1 as [|x l1 IH]; intros ys1 H1 H2; simpl in *.
  - injection H1 as <-. exact H2.
  - destruct (f x) as [y|]; [|discriminate].
    destruct (omap f l1) as [ys'|]; [|discriminate].
    injection H1 as <-. rewrite (IH ys' eq_refl H2). reflexivity.
Qed.

Lemma read_fuel_mono (f f' : nat) (h : heap) (l : nat) (e : element) :
  read_fuel f h l = Some e -> f <= f' -> read_fuel f' h l = Some e.
Proof.
  revert f' l e. induction f as [|f IH]; intros f' l e Hr Hle; [discriminate|].
  destruct f' as [|f']; [lia|]. simpl in *.
  destruct (nth_error h l) as [n|]; [|discriminate].
  destruct (omap (read_fuel f h) (n_kids n)) as [cs|] eqn:Ecs; [|discriminate].
  rewrite (omap_Some_impl _ (read_fuel f' h) _ _ Ecs).
  - exact Hr.
  - intros x y _ Hx. apply (IH f'); [exact Hx | lia].
Qed.

Lemma read_fuel_extend (f : nat) (h1 h2 : heap) (l : nat) (e : element) :
  store_incl h1 h2 -> read_fuel f h1 l = Some e -> read_fuel f h2 l = Some e.
Proof.
  intros Hi. revert l e. induction f as [|f IH]; intros l e Hr; [discriminate|].
  simpl in *.
  destruct (nth_error h1 l) as [n|] eqn:En; [|discriminate].
  rewrite (Hi l n En).
  destruct (omap (read_fuel f h1) (n_kids n)) as [cs|] eqn:Ecs; [|discriminate].
  rewrite (omap_Some_impl _ (read_fuel f h2) _ _ Ecs).
  - exact Hr.
  - intros x y _ Hx. apply IH. exact Hx.
Qed.

Lemma read_fuel_unfold (f : nat) (h : heap) (l : nat) :
  read_fuel (S f) h l =
  match nth_error h l with
  | Some n =>
      match omap (read_fuel f h) (n_kids n) with
      | Some cs => Some (Element (n_tag n) (n_attrib n) (n_text n) (n_tail n) cs)
      | None => None
      end
  | None => None
  end.
Proof. reflexivity. Qed.

Lemma store_incl_refl (h : heap) : store_incl h h.
Proof. intros i n H. exact H. Qed.

Lemma store_incl_trans (h1 h2 h3 : heap) :
  store_incl h1 h2 -> store_incl h2 h3 -> store_incl h1 h3.
Proof. intros H12 H23 i n H. apply H23, H12, H. Qed.

Lemma store_incl_length (h1 h2 : heap) :
  store_incl h1 h2 -> List.length h1 <= List.length h2.
Proof.
  intros H. destruct (List.length h1) as [|k] eqn:E; [lia|].
  destruct (nth_error h1 k) as [n|] eqn:En.
  - apply H in En. assert (k < List.length h2) by (apply nth_error_Some; congruence). lia.
  - apply nth_error_None in En. lia.
Qed.

Lemma store_incl_app (h new : heap) : store_incl h (h ++ new).
Proof.
  intros i n H. rewrite nth_error_app1; [exact H|].
  apply nth_error_Some. congruence.
Qed.

Lemma length_upd {A} (l : list A) (i : nat) (x : A) : List.length (upd l i x) = List.length l.
Proof.
  revert i. induction l as [|y l IH]; intros [|i]; simpl; auto.
Qed.

Lemma nth_error_upd_eq {A} (l : list A) (i : nat) (x : A) :
  i < List.length l -> nth_error (upd l i x) i = Some x.
Proof.
  revert i. induction l as [|y l IH]; intros [|i] H; simpl in *; try lia; auto.
  apply IH. lia.
Qed.

Lemma nth_error_upd_neq {A} (l : list A) (i j : nat) (x : A) :
  i <> j -> nth_error (upd l i x) j = nth_error l j.
Proof.
  revert i j. induction l as [|y l IH]; intros [|i] [|j] H; simpl; auto; try lia.
  all: apply IH; lia.
Qed.

(** Updating a location outside [h] keeps [h]. *)
Lemma store_incl_upd (h h' : heap) (i : nat) (x : node) :
  store_incl h h' -> List.length h <= i -> store_incl h (upd h' i x).
Proof.
  intros Hi Hl j n Hj.
  assert (j < List.length h) by (apply nth_error_Some; congruence).
  rewrite nth_error_upd_neq by lia. apply Hi, Hj.
Qed.

(** Layout of an allocated tree. *)

Lemma list_max_cons' (n : nat) (l : list nat) : list_max (n :: l) = Nat.max n (list_max l).
Proof. reflexivity. Qed.

Lemma alloc_bounds (h : heap) :
  (forall s l e, node_alloc h s l e -> s <= l) /\
  (forall s cs ks e, kids_alloc h s cs ks e -> s <= e).
Proof.
  split.
  - intros s l e H.
    induction H using node_alloc_mut with
      (P0 := fun s cs ks e _ => s <= e); lia.
  - intros s cs ks e H.
    induction H using kids_alloc_mut with
      (P := fun s l e _ => s <= l); lia.
Qed.

Lemma alloc_depth_both (h : heap) :
  (forall s l e, node_alloc h s l e -> depth e <= S l - s) /\
  (forall s cs ks e, kids_alloc h s cs ks e -> list_max (map depth cs) <= e - s).
Proof.
  apply (alloc_mutind h (fun s l e _ => depth e <= S l - s)
           (fun s cs ks e _ => list_max (map depth cs) <= e - s)).
  - intros s l t a x y cs ks _ Hk IH. cbn [depth].
    pose proof (proj2 (alloc_bounds h) _ _ _ _ Hk). lia.
  - intros s. simpl. lia.
  - intros s c cs l ls e Hn IHn Hk IHk. cbn [map]. rewrite list_max_cons'.
    pose proof (proj1 (alloc_bounds h) _ _ _ Hn).
    pose proof (proj2 (alloc_bounds h) _ _ _ _ Hk).
    lia.
Qed.

Lemma alloc_depth (h : heap) (s l : nat) (e : element) :
  node_alloc h s l e -> depth e <= S l - s.
Proof. apply (proj1 (alloc_depth_both h)). Qed.

Lemma alloc_read_both (h : heap) :
  (forall s l e, node_alloc h s l e -> forall f, depth e <= f -> read_fuel f h l = Some e) /\
  (forall s cs ks e, kids_alloc h s cs ks e ->
     forall f, list_max (map depth cs) <= f -> omap (read_fuel f h) ks = Some cs).
Proof.
  apply (alloc_mutind h
           (fun s l e _ => forall f, depth e <= f -> read_fuel f h l = Some e)
           (fun s cs ks e _ => forall f, list_max (map depth cs) <= f ->
              omap (read_fuel f h) ks = Some cs)).
  - intros s l t a x y cs ks Hl _ IH [|f] Hf; cbn [depth] in Hf; [lia|]. cbn [read_fuel].
    rewrite Hl. cbn [n_kids n_tag n_attrib n_text n_tail].
    rewrite (IH f) by lia. reflexivity.
  - intros s f _. reflexivity.
  - intros s c cs l ls e _ IHn _ IHk f Hf.
    cbn [map] in Hf. rewrite list_max_cons' in Hf. cbn [omap].
    rewrite (IHn f) by lia. rewrite (IHk f) by lia. reflexivity.
Qed.

Lemma alloc_read (h : heap) (s l : nat) (e : element) :
  node_alloc h s l e -> forall f, depth e <= f -> read_fuel f h l = Some e.
Proof. apply (proj1 (alloc_read_both h)). Qed.

Lemma alloc_read_tree (h : heap) (s l : nat) (e : element) :
  node_alloc h s l e -> read_tree h l = Some e.
Proof.
  intros H. apply (alloc_read h s l e H). unfold read_tree.
  pose proof (alloc_depth h s l e H).
  destruct H. assert (l < List.length h) by (apply nth_error_Some; congruence). lia.
Qed.

Lemma alloc_extend (h h' : heap) :
  store_incl h h' ->
  (forall s l e, node_alloc h s l e -> node_alloc h' s l e) /\
  (forall s cs ks e, kids_alloc h s cs ks e -> kids_alloc h' s cs ks e).
Proof.
  intros Hi. split.
  - intros s l e H.
    induction H using node_alloc_mut with
      (P0 := fun s cs ks e _ => kids_alloc h' s cs ks e);
      econstructor; eauto.
  - intros s cs ks e H.
    induction H using kids_alloc_mut with
      (P := fun s l e _ => node_alloc h' s l e);
      econstructor; eauto.
Qed.

(** Nodes outside a tree's locations do not matter to it. *)
Lemma alloc_frame (h h' : heap) :
  (forall s l e, node_alloc h s l e ->
     (forall j, s <= j <= l -> nth_error h' j = nth_error h j) -> node_alloc h' s l e) /\
  (forall s cs ks e, kids_alloc h s cs ks e ->
     (forall j, s <= j < e -> nth_error h' j = nth_error h j) -> kids_alloc h' s cs ks e).
Proof.
  assert (Hn : forall s l e, node_alloc h s l e ->
     (forall j, s <= j <= l -> nth_error h' j = nth_error h j) -> node_alloc h' s l e).
  { intros s l e H.
    induction H using node_alloc_mut with
      (P0 := fun s cs ks e _ =>
         (forall j, s <= j < e -> nth_error h' j = nth_error h j) -> kids_alloc h' s cs ks e).
    - intros Hj. pose proof (proj2 (alloc_bounds h) _ _ _ _ k).
      econstructor.
      + rewrite Hj by lia. exact e.
      + apply IHnode_alloc. intros j Hr. apply Hj. lia.
    - intros _. constructor.
    - intros Hj.
      match goal with
      | Hn : node_alloc _ _ _ _, Hk : kids_alloc _ _ _ _ _ |- _ =>
          pose proof (proj1 (alloc_bounds h) _ _ _ Hn);
          pose proof (proj2 (alloc_bounds h) _ _ _ _ Hk)
      end.
      constructor.
      + apply IHnode_alloc. intros j Hr. apply Hj. lia.
      + apply IHnode_alloc0. intros j Hr. apply Hj. lia. }
  split; [exact Hn|].
  intros s cs ks e H. induction H as [s|s c cs l ls e Hc Hk IH]; intros Hj.
  - constructor.
  - pose proof (proj1 (alloc_bounds h) _ _ _ Hc).
    pose proof (proj2 (alloc_bounds h) _ _ _ _ Hk).
    constructor.
    + apply Hn; [exact Hc|]. intros j Hr. apply Hj. lia.
    + apply IH. intros j Hr. apply Hj. lia.
Qed.

Lemma alloc_spec (e : element) :
  forall h r h', alloc_tree e h = (r, h') ->
  exists new, h' = h ++ new /\ S r = List.length h' /\ node_alloc h' (List.length h) r e.
Proof.
  induction e as [t a x y cs IHcs] using element_ind'.
  assert (Hk : forall h ls h', alloc_kids alloc_tree cs h = (ls, h') ->
            exists new, h' = h ++ new /\ kids_alloc h' (List.length h) cs ls (List.length h')).
  { induction IHcs as [|c cs Hc Hcs IH]; intros h ls h' Ha; simpl in Ha.
    - injection Ha as <- <-. exists []. rewrite app_nil_r. split; [reflexivity|constructor].
    - destruct (alloc_tree c h) as [l h1] eqn:E1.
      destruct (alloc_kids alloc_tree cs h1) as [ls' h2] eqn:E2.
      injection Ha as <- <-.
      destruct (Hc h l h1 E1) as [new1 [-> [Hl Hn]]].
      destruct (IH (h ++ new1) ls' h2 E2) as [new2 [-> Hks]].
      exists (new1 ++ new2). rewrite app_assoc. split; [reflexivity|].
      constructor.
      + apply (proj1 (alloc_extend _ _ (store_incl_app _ new2))). exact Hn.
      + rewrite Hl. exact Hks. }
  intros h r h' Ha. simpl in Ha.
  destruct (alloc_kids alloc_tree cs h) as [ls h1] eqn:E.
  injection Ha as <- <-.
  destruct (Hk h ls h1 E) as [new [-> Hks]].
  exists (new ++ [mk_node t a x y ls]). rewrite app_assoc.
  split; [reflexivity|]. split; [rewrite !length_app; simpl; lia|].
  econstructor.
  - rewrite nth_error_app2 by lia. replace (_ - _) with 0 by lia. reflexivity.
  - apply (proj2 (alloc_extend _ _ (store_incl_app _ _))). exact Hks.
Qed.

(** ** Setting the label of the clone *)

Lemma node_has_tag_alloc (h : heap) (t : ustr) (s l : nat) (c : element) :
  node_alloc h s l c -> node_has_tag h t l = has_tag t c.
Proof. intros H. destruct H as [s l t' a x y cs ks Hl _]. unfold node_has_tag. rewrite Hl. reflexivity. Qed.

Lemma kids_find_some (h : heap) (t : ustr) (v : option ustr) (s : nat) (cs : list element)
  (ks : list nat) (e l : nat) :
  kids_alloc h s cs ks e -> find (node_has_tag h t) ks = Some l ->
  exists n cs', nth_error h l = Some n /\ s <= l < e /\ set_first_text t v cs = Some cs' /\
    forall h2, nth_error h2 l = Some (mk_node (n_tag n) (n_attrib n) v (n_tail n) (n_kids n)) ->
      (forall j, s <= j < e -> j <> l -> nth_error h2 j = nth_error h j) ->
      kids_alloc h2 s cs' ks e.
Proof.
  intros H. induction H as [s|s c cs l0 ls e Hc Hk IH]; intros Hf; [discriminate|].
  pose proof (proj1 (alloc_bounds h) _ _ _ Hc) as B1.
  pose proof (proj2 (alloc_bounds h) _ _ _ _ Hk) as B2.
  simpl in Hf. rewrite (node_has_tag_alloc h t s l0 c Hc) in Hf.
  destruct (has_tag t c) eqn:Ht.
  - injection Hf as <-.
    destruct Hc as [s l0 t' a x y ccs kks Hl0 Hkk].
    exists (mk_node t' a x y kks), (set_text_e v (Element t' a x y ccs) :: cs).
    split; [exact Hl0|]. split; [lia|].
    split; [simpl; rewrite Ht; reflexivity|].
    intros h2 Hh2 Hj. constructor.
    + econstructor; [exact Hh2|].
      apply (proj2 (alloc_frame h h2)); [exact Hkk|].
      pose proof (proj2 (alloc_bounds h) _ _ _ _ Hkk).
      intros j Hr. apply Hj; lia.
    + apply (proj2 (alloc_frame h h2)); [exact Hk|].
      intros j Hr. apply Hj; lia.
  - destruct (IH Hf) as [n [cs' [Hn [Hb [Hs Hh]]]]].
    exists n, (c :: cs'). split; [exact Hn|]. split; [lia|].
    split; [simpl; rewrite Ht, Hs; reflexivity|].
    intros h2 Hh2 Hj. constructor.
    + apply (proj1 (alloc_frame h h2)); [exact Hc|].
      intros j Hr. apply Hj; lia.
    + apply Hh; [exact Hh2|]. intros j Hr Hne. apply Hj; lia.
Qed.

Lemma kids_find_none (h : heap) (t : ustr) (v : option ustr) (s : nat) (cs : list element)
  (ks : list nat) (e : nat) :
  kids_alloc h s cs ks e -> find (node_has_tag h t) ks = None -> set_first_text t v cs = None.
Proof.
  intros H. induction H as [s|s c cs l0 ls e Hc Hk IH]; intros Hf; [reflexivity|].
  simpl in Hf. rewrite (node_has_tag_alloc h t s l0 c Hc) in Hf.
  simpl. destruct (has_tag t c); [discriminate|]. rewrite (IH Hf). reflexivity.
Qed.

(** ** The run, step by step *)

Lemma bind_ok {A B} (m : M A) (k : A -> M B) (w : world) (a : A) (w' : world) :
  m w = (Ok a, w') -> bind m k w = k a w'.
Proof. intros H. unfold bind. rewrite H. reflexivity. Qed.

Lemma bind_raise {A B} (m : M A) (k : A -> M B) (w : world) (x : py_error) (w' : world) :
  m w = (Raise x, w') -> bind m k w = (Raise x, w').
Proof. intros H. unfold bind. rewrite H. reflexivity. Qed.

Lemma alloc_iter (h : heap) :
  (forall s l e, node_alloc h s l e -> forall f, depth e <= f ->
     Forall2 (fun l' e' => exists s', node_alloc h s' l' e') (iter_locs f h l) (iter e)) /\
  (forall s cs ks e, kids_alloc h s cs ks e -> forall f, list_max (map depth cs) <= f ->
     Forall2 (fun l' e' => exists s', node_alloc h s' l' e')
       (flat_map (iter_locs f h) ks) (flat_map iter cs)).
Proof.
  apply (alloc_mutind h
    (fun s l e _ => forall f, depth e <= f ->
       Forall2 (fun l' e' => exists s', node_alloc h s' l' e') (iter_locs f h l) (iter e))
    (fun s cs ks e _ => forall f, list_max (map depth cs) <= f ->
       Forall2 (fun l' e' => exists s', node_alloc h s' l' e')
         (flat_map (iter_locs f h) ks) (flat_map iter cs))).
  - intros s l t a x y cs ks Hl Hk IH [|f] Hf; cbn [depth] in Hf; [lia|].
    cbn [iter_locs iter]. rewrite Hl. cbn [n_kids]. constructor.
    + exists s. econstructor; eassumption.
    + apply IH. lia.
  - intros s f _. constructor.
  - intros s c cs l ls e _ IHn _ IHk f Hf.
    cbn [map] in Hf. rewrite list_max_cons' in Hf. cbn [flat_map].
    apply Forall2_app; [apply IHn | apply IHk]; lia.
Qed.

Lemma Forall2_filter {A B} (R : A -> B -> Prop) (f : A -> bool) (g : B -> bool)
  (l1 : list A) (l2 : list B) :
  Forall2 R l1 l2 -> (forall x y, R x y -> f x = g y) -> Forall2 R (filter f l1) (filter g l2).
Proof.
  intros H Hfg. induction H as [|x y l1 l2 Hxy _ IH]; simpl; [constructor|].
  rewrite (Hfg x y Hxy). destruct (g y); [constructor|]; assumption.
Qed.

Lemma Forall2_tl {A B} (R : A -> B -> Prop) (l1 : list A) (l2 : list B) :
  Forall2 R l1 l2 -> Forall2 R (tl l1) (tl l2).
Proof. intros H. destruct H; simpl; [constructor|assumption]. Qed.

Lemma tl_iter (e : element) : tl (iter e) = descendants e.
Proof. destruct e. reflexivity. Qed.

(** A path of [dir_chain] that is a file makes [os.makedirs] fail. *)
Lemma existsb_ueqb_is_file (w : world) (p : ustr) (l : list ustr) :
  existsb (ueqb p) l = true -> is_file w p = true -> existsb (is_file w) l = true.
Proof.
  intros Hin Hf. apply existsb_exists in Hin as [q [Hq Eq]].
  apply ueqb_spec in Eq. subst q. apply existsb_exists. exists p. split; assumption.
Qed.

(** ** The label of the Output Fragment *)

Lemma set_first_text_find (t : ustr) (v : option ustr) (cs cs' : list element) :
  set_first_text t v cs = Some cs' -> exists c, find (has_tag t) cs' = Some c /\ text c = v.
Proof.
  revert cs'. induction cs as [|c cs IH]; intros cs' H; simpl in H; [discriminate|].
  destruct (has_tag t c) eqn:Ht.
  - injection H as <-. exists (set_text_e v c). simpl.
    replace (has_tag t (set_text_e v c)) with true by (destruct c; exact (eq_sym Ht)).
    split; [reflexivity|]. destruct c; reflexivity.
  - destruct (set_first_text t v cs) as [cs''|] eqn:E; [|discriminate].
    injection H as <-. simpl. rewrite Ht. apply IH. reflexivity.
Qed.

Lemma set_first_text_none (t : ustr) (v : option ustr) (cs : list element) :
  set_first_text t v cs = None -> find (has_tag t) cs = None.
Proof.
  induction cs as [|c cs IH]; intros H; simpl in *; [reflexivity|].
  destruct (has_tag t c); [discriminate|].
  destruct (set_first_text t v cs); [discriminate|]. apply IH. reflexivity.
Qed.

Lemma set_first_text_others (t : ustr) (v : option ustr) (cs cs' : list element) :
  set_first_text t v cs = Some cs' ->
  filter (fun c => negb (has_tag t c)) cs' = filter (fun c => negb (has_tag t c)) cs.
Proof.
  revert cs'. induction cs as [|c cs IH]; intros cs' H; simpl in H; [discriminate|].
  destruct (has_tag t c) eqn:Ht.
  - injection H as <-. simpl. rewrite Ht.
    replace (has_tag t (set_text_e v c)) with true by (destruct c; exact (eq_sym Ht)).
    reflexivity.
  - destruct (set_first_text t v cs) as [cs''|] eqn:E; [|discriminate].
    injection H as <-. simpl. rewrite Ht. simpl. rewrite (IH cs'' eq_refl). reflexivity.
Qed.

Lemma set_first_text_tags (t : ustr) (v : option ustr) (cs cs' : list element) :
  set_first_text t v cs = Some cs' ->
  map tag (flat_map iter cs') = map tag (flat_map iter cs).
Proof.
  revert cs'. induction cs as [|c cs IH]; intros cs' H; simpl in H; [discriminate|].
  destruct (has_tag t c) eqn:Ht.
  - injection H as <-. destruct c. reflexivity.
  - destruct (set_first_text t v cs) as [cs''|] eqn:E; [|discriminate].
    injection H as <-. simpl. rewrite !map_app, (IH cs'' eq_refl). reflexivity.
Qed.

Lemma filter_has_tag_nil (t : ustr) (l : list element) :
  filter (has_tag t) l = [] <-> ~ In t (map tag l).
Proof.
  induction l as [|x l IH]; simpl; [tauto|].
  unfold has_tag at 1. destruct (ueqb (tag x) t) eqn:E.
  - apply ueqb_spec in E. split; [discriminate|]. intros H. exfalso. apply H. left. exact E.
  - rewrite IH. split.
    + intros H [Hx|Hx]; [|exact (H Hx)]. subst. rewrite ueqb_refl in E. discriminate.
    + intros H Hx. apply H. right. exact Hx.
Qed.

Lemma find_app_none {A} (f : A -> bool) (l1 l2 : list A) :
  find f l1 = None -> find f (l1 ++ l2) = find f l2.
Proof.
  induction l1 as [|x l1 IH]; intros H; simpl in *; [reflexivity|].
  destruct (f x); [discriminate|]. apply IH, H.
Qed.

(** ** Reading back a serialized tree *)

Lemma readback_has_tag (t : ustr) (c : element) : has_tag t (et_readback c) = has_tag t c.
Proof. destruct c; reflexivity. Qed.

Lemma readback_iter_tags (e : element) : map tag (iter (et_readback e)) = map tag (iter e).
Proof.
  induction e as [t a x y cs IH] using element_ind'. cbn [et_readback iter map tag].
  f_equal. induction IH as [|c cs Hc _ IHcs]; [reflexivity|].
  cbn [map flat_map]. rewrite !map_app, Hc, IHcs. reflexivity.
Qed.

Lemma readback_tags (cs : list element) :
  map tag (flat_map iter (map et_readback cs)) = map tag (flat_map iter cs).
Proof.
  induction cs as [|c cs IH]; [reflexivity|].
  cbn [map flat_map]. rewrite !map_app, readback_iter_tags, IH. reflexivity.
Qed.

Lemma readback_find (t : ustr) (cs : list element) :
  find (has_tag t) (map et_readback cs) = option_map et_readback (find (has_tag t) cs).
Proof.
  induction cs as [|c cs IH]; [reflexivity|].
  cbn [map find]. rewrite readback_has_tag. destruct (has_tag t c); [reflexivity|exact IH].
Qed.

Lemma readback_filter (t : ustr) (cs : list element) :
  filter (fun c => negb (has_tag t c)) (map et_readback cs) =
  map et_readback (filter (fun c => negb (has_tag t c)) cs).
Proof.
  induction cs as [|c cs IH]; [reflexivity|].
  cbn [map filter]. rewrite readback_has_tag. destruct (negb (has_tag t c)); [|exact IH].
  cbn [map]. rewrite IH. reflexivity.
Qed.

Lemma drop_empty_some (s : ustr) :
  drop_empty (Some s) = if is_nil s then None else Some s.
Proof. destruct s; reflexivity. Qed.

Lemma kml_name_not_placemark : kml "name" <> kml "Placemark".
Proof. intros E. vm_compute in E. discriminate. Qed.

Lemma document_not_placemark :
  ueqb (kml "Document") (kml "Placemark") = false.
Proof. vm_compute. reflexivity. Qed.

Section SegmentProofs.

Variable py_isalnum : N -> bool.
Variable char_upper : N -> ustr.
Variable et_fromstring : ustr -> option element.
Variable et_tostring : element -> ustr.


(** One iteration on a node that reads as [e]: the outcome and the files
    are those of [body_result]; the store only grows by nodes of the clone. *)
Lemma segment_body_effect (outdir : ustr) (pm total : nat) (h : heap)
  (files : list (ustr * ustr)) (dirs : list ustr) (e : element) :
  read_tree h pm = Some e ->
  exists h', store_incl h h' /\
    segment_body py_isalnum char_upper et_fromstring et_tostring outdir pm total
      (mk_world h files dirs) =
    (fst (body_result py_isalnum char_upper et_fromstring et_tostring outdir e total dirs files),
     mk_world h'
       (snd (body_result py_isalnum char_upper et_fromstring et_tostring outdir e total dirs files))
       dirs).
Proof.
  intros Hr. unfold segment_body.
  rewrite (bind_ok _ _ _ e (mk_world h files dirs))
    by (unfold read; cbn [w_heap]; rewrite Hr; reflexivity).
  unfold body_result, out_path_of.
  destruct (has_geometry e) eqn:Hg; cbn [negb].
  2: { exists h. split; [apply store_incl_refl|reflexivity]. }
  unfold fromstring. destruct (et_fromstring (et_tostring e)) as [e'|] eqn:Ep.
  2: { rewrite (bind_raise _ _ _ ParseError (mk_world h files dirs)) by reflexivity.
       exists h. split; [apply store_incl_refl|reflexivity]. }
  destruct (alloc_tree e' h) as [r h1] eqn:Ea.
  destruct (alloc_spec e' h r h1 Ea) as [new [Eh1 [Hlen Hna]]].
  rewrite (bind_ok _ _ _ r (mk_world h1 files dirs))
    by (unfold alloc; cbn [w_heap]; rewrite Ea; reflexivity).
  inversion Hna as [s0 r0 T A X Y cs ks Hnode Hks Es Er Ee]. subst e'. clear Es Er.
  pose proof (proj2 (alloc_depth_both h1) _ _ _ _ Hks) as Hdk.
  pose proof (proj2 (alloc_bounds h1) _ _ _ _ Hks) as Hsr.
  assert (Hinc1 : store_incl h h1) by (rewrite Eh1; apply store_incl_app).
  rewrite (bind_ok _ _ _ (find (node_has_tag h1 (kml "name")) ks) (mk_world h1 files dirs))
    by (unfold find_child_loc; cbn [w_heap]; rewrite Hnode; reflexivity).
  cbv beta.
  destruct (find (node_has_tag h1 (kml "name")) ks) as [l|] eqn:Hf.
  - (* a [kml:name] child exists: its text is overwritten *)
    destruct (kids_find_some h1 (kml "name") (Some (preferred_name char_upper e)) _ _ _ _ _
                Hks Hf) as [n [cs' [Hn [Hb [Hs Hh2]]]]].
    set (h2 := upd h1 l (mk_node (n_tag n) (n_attrib n) (Some (preferred_name char_upper e))
                               (n_tail n) (n_kids n))).
    rewrite (bind_ok _ _ _ l (mk_world h1 files dirs)) by reflexivity.
    rewrite (bind_ok _ _ _ tt (mk_world h2 files dirs))
      by (unfold set_text; cbn [w_heap]; rewrite Hn; reflexivity).
    assert (Hread : read_tree h2 r = Some (Element T A X Y cs')).
    { apply (alloc_read_tree h2 (List.length h)). econstructor.
      - unfold h2. rewrite nth_error_upd_neq by lia. exact Hnode.
      - apply Hh2.
        + unfold h2. apply nth_error_upd_eq. lia.
        + intros j _ Hne. unfold h2. apply nth_error_upd_neq. lia. }
    rewrite (bind_ok _ _ _ (Element T A X Y cs') (mk_world h2 files dirs))
      by (unfold read; cbn [w_heap]; rewrite Hread; reflexivity).
    assert (Hlab : set_label (preferred_name char_upper e) (Element T A X Y cs)
                   = Element T A X Y cs') by (simpl; rewrite Hs; reflexivity).
    rewrite Hlab.
    assert (Hinc : store_incl h h2) by (apply store_incl_upd; [exact Hinc1 | lia]).
    unfold write_file, is_dir. cbn [w_dirs w_files w_heap].
    destruct (existsb _ dirs) eqn:Hd.
    + rewrite (bind_raise _ _ _ OSError (mk_world h2 files dirs))
        by (cbn [w_dirs w_files w_heap]; rewrite Hd; reflexivity).
      exists h2. split; [exact Hinc | reflexivity].
    + rewrite (bind_ok _ _ _ tt _) by (cbn [w_dirs w_files w_heap]; rewrite Hd; reflexivity).
      exists h2. split; [exact Hinc | reflexivity].
  - (* no [kml:name] child: one is appended *)
    pose proof (kids_find_none h1 (kml "name") (Some (preferred_name char_upper e)) _ _ _ _
                  Hks Hf) as Hs.
    set (m := List.length h1).
    set (h1' := h1 ++ [mk_node (kml "name") [] None None []]).
    set (hh := upd h1' r (mk_node T A X Y (ks ++ [m]))).
    set (h3 := upd hh m (mk_node (kml "name") [] (Some (preferred_name char_upper e)) None [])).
    rewrite (bind_ok _ _ _ m (mk_world hh files dirs))
      by (unfold sub_element; cbn [w_heap]; rewrite Hnode; reflexivity).
    assert (Hm : nth_error hh m = Some (mk_node (kml "name") [] None None [])).
    { unfold hh. rewrite nth_error_upd_neq by (unfold m; lia).
      unfold h1'. rewrite nth_error_app2 by (unfold m; lia).
      unfold m. replace (_ - _) with 0 by lia. reflexivity. }
    rewrite (bind_ok _ _ _ tt (mk_world h3 files dirs))
      by (unfold set_text; cbn [w_heap]; rewrite Hm; reflexivity).
    assert (Hl3 : List.length h3 = S (S r)).
    { unfold h3, hh, h1'. rewrite !length_upd, length_app. simpl. lia. }
    assert (Hread : read_tree h3 r =
              Some (Element T A X Y (cs ++ [Element (kml "name") [] (Some (preferred_name char_upper e)) None []]))).
    { unfold read_tree. rewrite Hl3. rewrite read_fuel_unfold.
      assert (Hr3 : nth_error h3 r = Some (mk_node T A X Y (ks ++ [m]))).
      { unfold h3. rewrite nth_error_upd_neq by (unfold m; lia).
        unfold hh. apply nth_error_upd_eq. unfold h1'. rewrite length_app. simpl. lia. }
      rewrite Hr3. cbn [n_kids n_tag n_attrib n_text n_tail].
      erewrite omap_app.
      - reflexivity.
      - apply (proj2 (alloc_read_both h3) (List.length h) cs ks r).
        + apply (proj2 (alloc_frame h1 h3)); [exact Hks|].
          intros j Hj. unfold h3. rewrite nth_error_upd_neq by (unfold m; lia).
          unfold hh. rewrite nth_error_upd_neq by lia.
          unfold h1'. apply nth_error_app1. unfold m in *. lia.
        + lia.
      - cbn [omap]. rewrite read_fuel_unfold.
        unfold h3. rewrite nth_error_upd_eq.
        + reflexivity.
        + unfold hh, h1'. rewrite length_upd, length_app. simpl. lia. }
    rewrite (bind_ok _ _ _ _ (mk_world h3 files dirs))
      by (unfold read; cbn [w_heap]; rewrite Hread; reflexivity).
    assert (Hlab : set_label (preferred_name char_upper e) (Element T A X Y cs)
                   = Element T A X Y (cs ++ [Element (kml "name") [] (Some (preferred_name char_upper e)) None []]))
      by (simpl; rewrite Hs; reflexivity).
    rewrite Hlab.
    assert (Hinc : store_incl h h3).
    { unfold h3. apply store_incl_upd; [|unfold m; rewrite Eh1, length_app; lia].
      unfold hh. apply store_incl_upd; [|lia].
      apply (store_incl_trans _ h1); [exact Hinc1|]. apply store_incl_app. }
    unfold write_file, is_dir. cbn [w_dirs w_files w_heap].
    destruct (existsb _ dirs) eqn:Hd.
    + rewrite (bind_raise _ _ _ OSError (mk_world h3 files dirs))
        by (cbn [w_dirs w_files w_heap]; rewrite Hd; reflexivity).
      exists h3. split; [exact Hinc | reflexivity].
    + rewrite (bind_ok _ _ _ tt _) by (cbn [w_dirs w_files w_heap]; rewrite Hd; reflexivity).
      exists h3. split; [exact Hinc | reflexivity].
Qed.

Lemma segment_loop_effect (outdir : ustr) (pms : list nat) (es : list element) (total : nat)
  (h : heap) (files : list (ustr * ustr)) (dirs : list ustr) :
  Forall2 (fun l e => forall h', store_incl h h' -> read_tree h' l = Some e) pms es ->
  exists h', store_incl h h' /\
    segment_loop py_isalnum char_upper et_fromstring et_tostring outdir pms total
      (mk_world h files dirs) =
    (fst (loop_result py_isalnum char_upper et_fromstring et_tostring outdir es total dirs files),
     mk_world h'
       (snd (loop_result py_isalnum char_upper et_fromstring et_tostring outdir es total dirs files))
       dirs).
Proof.
  revert es total h files. induction pms as [|l pms IH]; intros [|e es'] total h files H;
    inversion H as [|? ? ? ? Hl Hrest]; subst.
  - exists h. split; [apply store_incl_refl|reflexivity].
  - destruct (segment_body_effect outdir l total h files dirs e (Hl h (store_incl_refl h)))
      as [h1 [Hinc1 Eb]].
    simpl. destruct (body_result py_isalnum char_upper et_fromstring et_tostring outdir e total dirs files)
      as [[t'|x] f'] eqn:Er; simpl in Eb.
    + rewrite (bind_ok _ _ _ t' (mk_world h1 f' dirs) Eb).
      assert (Hrest' : Forall2 (fun l e => forall h', store_incl h1 h' -> read_tree h' l = Some e)
                         pms es').
      { eapply Forall2_impl; [|exact Hrest].
        intros l0 e0 Hp h' Hi. apply Hp. eapply store_incl_trans; eassumption. }
      destruct (IH es' t' h1 f' Hrest') as [h2 [Hinc2 El]].
      exists h2. split; [eapply store_incl_trans; eassumption | exact El].
    + rewrite (bind_raise _ _ _ x (mk_world h1 f' dirs) Eb).
      exists h1. split; [exact Hinc1 | reflexivity].
Qed.

(** A run that gets past the parse: the outcome and the files are those
    of [loop_result] over the source's Placemarks; the parsed source tree
    is in the store and its nodes stay unchanged. *)
Lemma segment_kml_effect (input outdir c : ustr) (doc : element) (root : nat) (h0 : heap)
  (w : world) :
  lookup_file input (w_files w) = Some c ->
  et_fromstring c = Some doc ->
  is_nil outdir = false ->
  existsb (is_file w) (dir_chain outdir) = false ->
  is_dir w input = false ->
  alloc_tree doc (w_heap w) = (root, h0) ->
  exists h', store_incl h0 h' /\ read_tree h0 root = Some doc /\
    segment_kml py_isalnum char_upper et_fromstring et_tostring input outdir w =
    (fst (loop_result py_isalnum char_upper et_fromstring et_tostring outdir
            (findall_desc (kml "Placemark") doc) 0 (dir_chain outdir ++ w_dirs w) (w_files w)),
     mk_world h'
       (snd (loop_result py_isalnum char_upper et_fromstring et_tostring outdir
               (findall_desc (kml "Placemark") doc) 0 (dir_chain outdir ++ w_dirs w) (w_files w)))
       (dir_chain outdir ++ w_dirs w)).
Proof.
  intros Hc Hp Hnil Hchain Hdir Ha.
  assert (Hfile : is_file w input = true) by (unfold is_file; rewrite Hc; reflexivity).
  destruct w as [h files dirs]. cbn [w_files w_dirs w_heap] in *.
  destruct (alloc_spec doc h root h0 Ha) as [new [Eh0 [Hlen Hna]]].
  unfold segment_kml.
  rewrite (bind_ok _ _ _ true (mk_world h files dirs))
    by (unfold path_exists; rewrite Hfile; reflexivity).
  cbv beta. cbn [negb].
  rewrite (bind_ok _ _ _ tt (mk_world h files (dir_chain outdir ++ dirs)))
    by (unfold os_makedirs; rewrite Hnil; cbn [w_heap w_files w_dirs];
        rewrite Hchain; reflexivity).
  assert (Hdir' : is_dir (mk_world h files (dir_chain outdir ++ dirs)) input = false).
  { unfold is_dir. cbn [w_dirs]. rewrite existsb_app.
    destruct (existsb (ueqb input) (dir_chain outdir)) eqn:E.
    - rewrite (existsb_ueqb_is_file _ _ _ E Hfile) in Hchain. discriminate.
    - exact Hdir. }
  rewrite (bind_ok _ _ _ root (mk_world h0 files (dir_chain outdir ++ dirs)))
    by (unfold et_parse; rewrite Hdir'; cbn [w_files]; rewrite Hc;
        unfold fromstring; rewrite Hp; unfold alloc; cbn [w_heap]; rewrite Ha; reflexivity).
  rewrite (bind_ok _ _ _ _ (mk_world h0 files (dir_chain outdir ++ dirs))) by reflexivity.
  cbn [w_heap].
  assert (Hrel : Forall2 (fun l e => forall h', store_incl h0 h' -> read_tree h' l = Some e)
                   (filter (node_has_tag h0 (kml "Placemark"))
                      (tl (iter_locs (S (List.length h0)) h0 root)))
                   (findall_desc (kml "Placemark") doc)).
  { unfold findall_desc. rewrite <- tl_iter.
    eapply Forall2_impl.
    2: { apply Forall2_filter.
         - apply Forall2_tl. apply (proj1 (alloc_iter h0) _ _ _ Hna).
           pose proof (alloc_depth h0 _ _ _ Hna). lia.
         - intros l e [s' Hs']. apply (node_has_tag_alloc h0 _ s'). exact Hs'. }
    intros l e [s' Hs'] h' Hi.
    apply (alloc_read_tree h' s'). apply (proj1 (alloc_extend h0 h' Hi)). exact Hs'. }
  destruct (segment_loop_effect outdir _ _ 0 h0 files (dir_chain outdir ++ dirs) Hrel)
    as [h' [Hinc El]].
  exists h'. split; [exact Hinc|]. split; [apply (alloc_read_tree h0 _ _ _ Hna)|].
  exact El.
Qed.

Lemma body_result_nogeo (outdir : ustr) (e : element) (t : nat) (dirs : list ustr)
  (files : list (ustr * ustr)) :
  has_geometry e = false ->
  body_result py_isalnum char_upper et_fromstring et_tostring outdir e t dirs files = (Ok t, files).
Proof. intros Hg. unfold body_result. rewrite Hg. reflexivity. Qed.

Lemma body_result_ok (outdir : ustr) (e : element) (t t' : nat) (dirs : list ustr)
  (files files' : list (ustr * ustr)) :
  body_result py_isalnum char_upper et_fromstring et_tostring outdir e t dirs files = (Ok t', files') ->
  has_geometry e = true ->
  t' = t + 1 /\
  exists d, output_document char_upper et_fromstring et_tostring e = Some d /\
    files' = (out_path_of py_isalnum char_upper outdir e, d)
               :: filter (fun q => negb (ueqb (fst q) (out_path_of py_isalnum char_upper outdir e))) files.
Proof.
  intros H Hg. unfold body_result in H. rewrite Hg in H. cbn [negb] in H.
  unfold output_document.
  destruct (et_fromstring (et_tostring e)) as [e'|]; [|discriminate].
  destruct (existsb _ dirs); [discriminate|].
  injection H as <- <-. split; [reflexivity|]. eexists. split; reflexivity.
Qed.

Lemma loop_result_count (outdir : ustr) (es : list element) (t : nat) (dirs : list ustr)
  (files files' : list (ustr * ustr)) (n : nat) :
  loop_result py_isalnum char_upper et_fromstring et_tostring outdir es t dirs files = (Ok n, files') ->
  n = t + List.length (filter has_geometry es).
Proof.
  revert t files. induction es as [|e es IH]; intros t files H; simpl in H.
  - injection H as <- _. simpl. lia.
  - simpl. destruct (has_geometry e) eqn:Hg.
    + destruct (body_result py_isalnum char_upper et_fromstring et_tostring outdir e t dirs files)
        as [[t'|x] f'] eqn:Eb; [|discriminate].
      destruct (body_result_ok _ _ _ _ _ _ _ Eb Hg) as [-> _].
      rewrite (IH _ _ H). simpl. lia.
    + rewrite (body_result_nogeo _ _ _ _ _ Hg) in H. apply (IH _ _ H).
Qed.

Lemma loop_result_noop (outdir : ustr) (es : list element) (t : nat) (dirs : list ustr)
  (files : list (ustr * ustr)) :
  filter has_geometry es = [] ->
  loop_result py_isalnum char_upper et_fromstring et_tostring outdir es t dirs files = (Ok t, files).
Proof.
  induction es as [|e es IH]; intros H; [reflexivity|].
  simpl in H. simpl. destruct (has_geometry e) eqn:Hg; [discriminate|].
  rewrite (body_result_nogeo _ _ _ _ _ Hg). apply IH, H.
Qed.

Lemma filter_filter_negb {A} (f : A -> bool) (l : list A) :
  filter f (filter (fun x => negb (f x)) l) = [].
Proof.
  induction l as [|x l IH]; [reflexivity|]. simpl.
  destruct (f x) eqn:E; simpl; [exact IH|]. rewrite E. exact IH.
Qed.

(** After the loop, the path of the last feature with geometry holds one
    file: that feature's Output Document. *)
Lemma loop_result_last_write (outdir : ustr) (es g0 : list element) (e2 : element) (t : nat)
  (dirs : list ustr) (files files' : list (ustr * ustr)) (n : nat) :
  loop_result py_isalnum char_upper et_fromstring et_tostring outdir es t dirs files = (Ok n, files') ->
  filter has_geometry es = g0 ++ [e2] ->
  exists d2, output_document char_upper et_fromstring et_tostring e2 = Some d2 /\
    filter (fun q => ueqb (fst q) (out_path_of py_isalnum char_upper outdir e2)) files' =
    [(out_path_of py_isalnum char_upper outdir e2, d2)].
Proof.
  revert g0 t files. induction es as [|e es IH]; intros g0 t files H Hf.
  - simpl in Hf. destruct g0; discriminate.
  - simpl in H, Hf. destruct (has_geometry e) eqn:Hg.
    + destruct (body_result py_isalnum char_upper et_fromstring et_tostring outdir e t dirs files)
        as [[t'|x] f'] eqn:Eb; [|discriminate].
      destruct (body_result_ok _ _ _ _ _ _ _ Eb Hg) as [_ [d [Hd ->]]].
      destruct g0 as [|g g0'].
      * injection Hf as -> Hnil.
        rewrite (loop_result_noop _ _ t' _ _ Hnil) in H. injection H as _ <-.
        exists d. split; [exact Hd|]. simpl. rewrite ueqb_refl.
        rewrite (filter_filter_negb (fun q => ueqb (fst q) (out_path_of py_isalnum char_upper outdir e2))).
        reflexivity.
      * injection Hf as _ Hf. apply (IH g0' t' _ H Hf).
    + rewrite (body_result_nogeo _ _ _ _ _ Hg) in H. apply (IH g0 t files H Hf).
Qed.

(** What a run that ends normally has gone through. *)
Lemma segment_kml_ok_pre (input outdir c : ustr) (w w' : world) (n : nat) :
  lookup_file input (w_files w) = Some c ->
  segment_kml py_isalnum char_upper et_fromstring et_tostring input outdir w = (Ok n, w') ->
  is_nil outdir = false /\ existsb (is_file w) (dir_chain outdir) = false /\ is_dir w input = false.
Proof.
  intros Hc H.
  assert (Hfile : is_file w input = true) by (unfold is_file; rewrite Hc; reflexivity).
  destruct w as [h files dirs]. cbn [w_files w_dirs w_heap] in *.
  unfold segment_kml in H.
  rewrite (bind_ok _ _ _ true (mk_world h files dirs)) in H
    by (unfold path_exists; rewrite Hfile; reflexivity).
  cbv beta in H. cbn [negb] in H.
  destruct (is_nil outdir) eqn:Hnil.
  { rewrite (bind_raise _ _ _ FileNotFoundError (mk_world h files dirs)) in H
      by (unfold os_makedirs; rewrite Hnil; reflexivity). discriminate. }
  destruct (existsb (is_file (mk_world h files dirs)) (dir_chain outdir)) eqn:Hch.
  { rewrite (bind_raise _ _ _ OSError (mk_world h files dirs)) in H
      by (unfold os_makedirs; rewrite Hnil, Hch; reflexivity). discriminate. }
  split; [reflexivity|]. split; [reflexivity|].
  rewrite (bind_ok _ _ _ tt (mk_world h files (dir_chain outdir ++ dirs))) in H
    by (unfold os_makedirs; rewrite Hnil; cbn [w_heap w_files w_dirs]; rewrite Hch; reflexivity).
  destruct (is_dir (mk_world h files dirs) input) eqn:Hd; [|reflexivity].
  rewrite (bind_raise _ _ _ OSError (mk_world h files (dir_chain outdir ++ dirs))) in H.
  - discriminate.
  - unfold et_parse, is_dir in *. cbn [w_dirs] in *. rewrite existsb_app, Hd, orb_true_r.
    reflexivity.
Qed.

(** C4: a run that returns [n] has written one Output Document for each
    Placemark of the source that has geometry, and [n] counts them, even
    when two of them resolve to the same file: with exactly two such
    Placemarks sharing their output path, [n = 2] and the path holds one
    file, the Output Document of the later one. *)
Theorem segment_kml_count (input outdir c : ustr) (doc : element) (w w' : world) (n : nat) :
  lookup_file input (w_files w) = Some c ->
  et_fromstring c = Some doc ->
  segment_kml py_isalnum char_upper et_fromstring et_tostring input outdir w = (Ok n, w') ->
  n = List.length (filter has_geometry (findall_desc (kml "Placemark") doc)) /\
  (forall e1 e2, filter has_geometry (findall_desc (kml "Placemark") doc) = [e1; e2] ->
     out_path_of py_isalnum char_upper outdir e1 = out_path_of py_isalnum char_upper outdir e2 ->
     n = 2 /\
     exists d2, output_document char_upper et_fromstring et_tostring e2 = Some d2 /\
       filter (fun q => ueqb (fst q) (out_path_of py_isalnum char_upper outdir e2)) (w_files w') =
       [(out_path_of py_isalnum char_upper outdir e2, d2)]).
Proof.
  intros Hc Hp H.
  destruct (segment_kml_ok_pre input outdir c w w' n Hc H) as [Hnil [Hch Hd]].
  destruct (alloc_tree doc (w_heap w)) as [root h0] eqn:Ha.
  destruct (segment_kml_effect input outdir c doc root h0 w Hc Hp Hnil Hch Hd Ha)
    as [h' [_ [_ E]]].
  rewrite E in H. clear E.
  destruct (loop_result py_isalnum char_upper et_fromstring et_tostring outdir
              (findall_desc (kml "Placemark") doc) 0 (dir_chain outdir ++ w_dirs w) (w_files w))
    as [o files'] eqn:El.
  cbn [fst snd] in H. injection H as -> <-.
  pose proof (loop_result_count _ _ _ _ _ _ _ El) as Hn.
  split; [exact Hn|].
  intros e1 e2 H2 _. split.
  - rewrite Hn, H2. reflexivity.
  - apply (loop_result_last_write outdir _ [e1] e2 0 _ _ _ n El H2).
Qed.

(** C7: once the source is parsed, its nodes are never changed: the store
    right after the parse is part of the store at the end of the run,
    whatever the run's outcome, and the source root still reads as the
    parsed document. *)
Theorem segment_kml_source_unchanged (input outdir c : ustr) (doc : element) (w : world)
  (root : nat) (h0 : heap) :
  lookup_file input (w_files w) = Some c ->
  et_fromstring c = Some doc ->
  is_nil outdir = false ->
  existsb (is_file w) (dir_chain outdir) = false ->
  is_dir w input = false ->
  alloc_tree doc (w_heap w) = (root, h0) ->
  read_tree h0 root = Some doc /\
  store_incl h0 (w_heap (snd (segment_kml py_isalnum char_upper et_fromstring et_tostring
                                input outdir w))) /\
  read_tree (w_heap (snd (segment_kml py_isalnum char_upper et_fromstring et_tostring
                            input outdir w))) root = Some doc.
Proof.
  intros Hc Hp Hnil Hch Hd Ha.
  destruct (segment_kml_effect input outdir c doc root h0 w Hc Hp Hnil Hch Hd Ha)
    as [h' [Hinc [Hr E]]].
  rewrite E. cbn [snd w_heap].
  split; [exact Hr|]. split; [exact Hinc|].
  unfold read_tree in *. apply (read_fuel_extend _ h0 h' _ _ Hinc).
  apply (read_fuel_mono _ _ _ _ _ Hr).
  pose proof (store_incl_length _ _ Hinc). lia.
Qed.

(** C8: a missing input path raises [FileNotFoundError] before anything
    else: no directory is created and no file written. *)
Theorem segment_kml_missing_input (input outdir : ustr) (w : world) :
  is_file w input = false -> is_dir w input = false ->
  segment_kml py_isalnum char_upper et_fromstring et_tostring input outdir w =
  (Raise FileNotFoundError, w).
Proof.
  intros Hf Hd. unfold segment_kml.
  rewrite (bind_ok _ _ _ false w) by (unfold path_exists; rewrite Hf, Hd; reflexivity).
  reflexivity.
Qed.

(** C9: the output directory is created before the input is parsed: when
    the input exists but does not parse, the run raises [ParseError] with
    the files unchanged and the directories of [outdir] created. *)
Theorem segment_kml_parse_error (input outdir c : ustr) (w : world) :
  lookup_file input (w_files w) = Some c ->
  et_fromstring c = None ->
  is_nil outdir = false ->
  existsb (is_file w) (dir_chain outdir) = false ->
  is_dir w input = false ->
  segment_kml py_isalnum char_upper et_fromstring et_tostring input outdir w =
  (Raise ParseError, mk_world (w_heap w) (w_files w) (dir_chain outdir ++ w_dirs w)) /\
  In outdir (dir_chain outdir ++ w_dirs w).
Proof.
  intros Hc Hp Hnil Hchain Hdir.
  split; [|apply in_or_app; left; unfold dir_chain; apply in_or_app; right; left; reflexivity].
  assert (Hfile : is_file w input = true) by (unfold is_file; rewrite Hc; reflexivity).
  destruct w as [h files dirs]. cbn [w_files w_dirs w_heap] in *.
  unfold segment_kml.
  rewrite (bind_ok _ _ _ true (mk_world h files dirs))
    by (unfold path_exists; rewrite Hfile; reflexivity).
  cbv beta. cbn [negb].
  rewrite (bind_ok _ _ _ tt (mk_world h files (dir_chain outdir ++ dirs)))
    by (unfold os_makedirs; rewrite Hnil; cbn [w_heap w_files w_dirs];
        rewrite Hchain; reflexivity).
  assert (Hdir' : is_dir (mk_world h files (dir_chain outdir ++ dirs)) input = false).
  { unfold is_dir. cbn [w_dirs]. rewrite existsb_app.
    destruct (existsb (ueqb input) (dir_chain outdir)) eqn:E.
    - rewrite (existsb_ueqb_is_file _ _ _ E Hfile) in Hchain. discriminate.
    - exact Hdir. }
  rewrite (bind_raise _ _ _ ParseError (mk_world h files (dir_chain outdir ++ dirs))).
  - reflexivity.
  - unfold et_parse. rewrite Hdir'. cbn [w_files]. rewrite Hc.
    unfold fromstring. rewrite Hp. reflexivity.
Qed.

(** C6: the Output Document of a Placemark with no nested Placemark,
    parsed again, holds exactly one Placemark, the clone: its label is the
    resolved name (which may differ from the source's label), absent when
    that name is empty, and its tag, attributes, text and every child
    other than the label are the source's.  The source feature is a parsed
    one (no empty [text] or [tail]).  Assumed of the XML library: the clone
    of the feature is the feature without its tail, and the wrapped
    serialization of the labelled clone parses as [kml_document] says. *)
Theorem output_document_roundtrip (pm : element) :
  et_fromstring (et_tostring pm) = Some (strip_tail pm) ->
  et_fromstring (wrap_document (et_tostring
      (set_label (preferred_name char_upper pm) (strip_tail pm)))) =
    Some (kml_document (set_label (preferred_name char_upper pm) (strip_tail pm))) ->
  et_readback pm = pm ->
  tag pm = kml "Placemark" ->
  findall_desc (kml "Placemark") pm = [] ->
  exists s d g,
    output_document char_upper et_fromstring et_tostring pm = Some s /\
    et_fromstring s = Some d /\
    findall_desc (kml "Placemark") d = [g] /\
    option_map text (find_child (kml "name") g) =
      Some (if is_nil (preferred_name char_upper pm) then None
            else Some (preferred_name char_upper pm)) /\
    tag g = tag pm /\ attrib g = attrib pm /\ text g = text pm /\
    filter (fun c => negb (has_tag (kml "name") c)) (children g) =
    filter (fun c => negb (has_tag (kml "name") c)) (children pm).
Proof.
  intros Hclone Hdoc Hrb Htag Hnest.
  set (name := preferred_name char_upper pm) in *.
  set (g0 := set_label name (strip_tail pm)) in *.
  assert (Htail : tail g0 = None).
  { unfold g0. destruct pm as [t a x y cs]. simpl.
    destruct (set_first_text (kml "name") (Some name) cs); reflexivity. }
  exists (wrap_document (et_tostring g0)), (kml_document g0), (set_tail (Some nl) (et_readback g0)).
  split; [unfold output_document; rewrite Hclone; reflexivity|].
  split; [exact Hdoc|].
  assert (Hd : kml_document g0 =
    Element (kml "kml") [] (Some nl) None
      [Element (kml "Document") [] (Some nl) (Some nl) [set_tail (Some nl) (et_readback g0)]]).
  { unfold kml_document. rewrite Htail. reflexivity. }
  rewrite Hd. clear Hd Hdoc Hclone.
  unfold findall_desc in Hnest |- *. unfold descendants in Hnest.
  apply filter_has_tag_nil in Hnest.
  unfold g0 in *. clear g0 Htail. destruct pm as [t a x y cs].
  cbn [et_readback] in Hrb. injection Hrb as Hx _ Hcs.
  cbn [tag attrib text children] in *.
  subst t. cbn [strip_tail set_label].
  destruct (set_first_text (kml "name") (Some name) cs) as [cs'|] eqn:Hs.
  - cbn [et_readback set_tail]. split.
    { cbn [descendants children flat_map iter]. rewrite !app_nil_r.
      cbn [filter]. unfold has_tag at 1. cbn [tag]. rewrite document_not_placemark.
      unfold has_tag at 1. cbn [tag]. rewrite ueqb_refl.
      f_equal. apply filter_has_tag_nil.
      rewrite readback_tags, (set_first_text_tags _ _ _ _ Hs). exact Hnest. }
    split.
    { unfold find_child. cbn [children]. rewrite readback_find.
      destruct (set_first_text_find _ _ _ _ Hs) as [c [Hc Hx']]. rewrite Hc.
      destruct c as [ct ca cx cy ccs]. cbn in Hx' |- *. subst cx.
      rewrite drop_empty_some. reflexivity. }
    split; [reflexivity|]. split; [reflexivity|]. split; [exact Hx|].
    cbn [children]. rewrite readback_filter, (set_first_text_others _ _ _ _ Hs).
    rewrite <- readback_filter, Hcs. reflexivity.
  - cbn [et_readback set_tail]. rewrite map_app, Hcs. cbn [map et_readback].
    split.
    { cbn [descendants children flat_map iter]. rewrite !app_nil_r.
      cbn [filter]. unfold has_tag at 1. cbn [tag]. rewrite document_not_placemark.
      unfold has_tag at 1. cbn [tag]. rewrite ueqb_refl.
      f_equal. apply filter_has_tag_nil. rewrite flat_map_app. cbn [flat_map iter].
      rewrite map_app. cbn [map app tag]. intros Hin. apply in_app_or in Hin as [Hin|Hin].
      - exact (Hnest Hin).
      - destruct Hin as [Hin|[]]. exact (kml_name_not_placemark Hin). }
    split.
    { unfold find_child. cbn [children]. rewrite find_app_none by (apply (set_first_text_none _ _ _ Hs)).
      cbn [find]. unfold has_tag. cbn [tag]. rewrite ueqb_refl. cbn [option_map text].
      rewrite drop_empty_some. reflexivity. }
    split; [reflexivity|]. split; [reflexivity|]. split; [exact Hx|].
    cbn [children]. rewrite filter_app. cbn [filter]. unfold has_tag at 2. cbn [tag].
    rewrite ueqb_refl. cbn [negb]. apply app_nil_r.
Qed.

End SegmentProofs.

(** ** The stand-in XML library reads back what it writes *)

Lemma firstn_skipn_app_length {A} (s r : list A) :
  firstn (List.length s) (s ++ r) = s /\ skipn (List.length s) (s ++ r) = r.
Proof. induction s as [|x s IH]; simpl; [auto|]. destruct IH as [-> ->]. auto. Qed.

Lemma dec_str_enc (s r : ustr) : dec_str (enc_str s ++ r) = Some (s, r).
Proof.
  unfold enc_str, dec_str. cbn [app]. rewrite Nat2N.id.
  destruct (firstn_skipn_app_length s r) as [-> ->].
  replace (Nat.leb (List.length s) (List.length (s ++ r))) with true.
  - reflexivity.
  - symmetry. apply Nat.leb_le. rewrite length_app. lia.
Qed.

Lemma dec_opt_enc (o : option ustr) (r : ustr) : dec_opt (enc_opt o ++ r) = Some (o, r).
Proof.
  destruct o as [s|]; [|reflexivity].
  cbn [enc_opt app dec_opt]. rewrite dec_str_enc. reflexivity.
Qed.

Lemma dec_pairs_enc (a : list (ustr * ustr)) (r : ustr) :
  dec_pairs (List.length a) (flat_map (fun p => enc_str (fst p) ++ enc_str (snd p)) a ++ r)
  = Some (a, r).
Proof.
  induction a as [|[k v] a IH]; [reflexivity|].
  cbn [List.length flat_map dec_pairs fst snd]. rewrite <- !app_assoc.
  rewrite dec_str_enc, dec_str_enc, IH. reflexivity.
Qed.

Lemma dec_elem_enc (e : element) :
  forall f r, depth e <= f -> dec_elem f (toy_enc e ++ r) = Some (e, r).
Proof.
  induction e as [t a x y cs IH] using element_ind'.
  intros [|f] r Hf; cbn [depth] in Hf; [lia|].
  assert (Hk : forall r, dec_kids (dec_elem f) (List.length cs) (flat_map toy_enc cs ++ r)
                         = Some (cs, r)).
  { clear t a x y. induction IH as [|c cs Hc _ IHk]; intros r'; [reflexivity|].
    cbn [map] in Hf. rewrite list_max_cons' in Hf.
    cbn [List.length flat_map dec_kids]. rewrite <- app_assoc.
    rewrite (Hc f) by lia. rewrite IHk; [reflexivity|lia]. }
  cbn [toy_enc dec_elem]. rewrite <- !app_assoc. cbn [app].
  rewrite dec_str_enc, Nat2N.id, <- !app_assoc, dec_pairs_enc, dec_opt_enc, dec_opt_enc.
  cbn [app]. rewrite Nat2N.id, Hk. reflexivity.
Qed.

Lemma depth_enc (e : element) : depth e <= List.length (toy_enc e).
Proof.
  induction e as [t a x y cs IH] using element_ind'.
  cbn [depth toy_enc]. repeat (rewrite length_app; cbn [List.length]).
  enough (list_max (map depth cs) <= List.length (flat_map toy_enc cs)) by lia.
  clear t a x y. induction IH as [|c cs Hc _ IHk]; [simpl; lia|].
  cbn [map flat_map]. rewrite list_max_cons', length_app. lia.
Qed.

Lemma toy_decode_enc (e : element) : toy_decode (toy_enc e) = Some e.
Proof.
  unfold toy_decode. rewrite <- (app_nil_r (toy_enc e)).
  rewrite dec_elem_enc; [reflexivity|]. rewrite app_nil_r. pose proof (depth_enc e). lia.
Qed.

Lemma strip_prefix_app (p s : ustr) : strip_prefix p (p ++ s) = Some s.
Proof. induction p as [|c p IH]; simpl; [reflexivity|]. rewrite N.eqb_refl. exact IH. Qed.

Lemma wrap_document_split (inner : ustr) : wrap_document inner = doc_open ++ inner ++ doc_close.
Proof. unfold wrap_document, doc_open, doc_close. rewrite <- !app_assoc. reflexivity. Qed.

Lemma doc_open_head : doc_open = 60%N :: tl doc_open.
Proof. vm_compute. reflexivity. Qed.

Lemma toy_fromstring_envelope (s : ustr) :
  hd 0%N s <> 0%N ->
  toy_fromstring s =
  match strip_prefix doc_open s with
  | Some r =>
      match strip_prefix (rev doc_close) (rev r) with
      | Some rest =>
          match rev rest with
          | 0%N :: inner => option_map kml_document (toy_decode inner)
          | _ => None
          end
      | None => None
      end
  | None => None
  end.
Proof.
  intros H. destruct s as [|c r]; simpl in H; [congruence|].
  destruct c; [congruence|reflexivity].
Qed.

(** The stand-in library parses a wrapped serialization as the envelope
    around the serialized element. *)
Lemma toy_wrap_roundtrip (f : element) :
  toy_fromstring (wrap_document (toy_tostring f)) = Some (kml_document f).
Proof.
  rewrite wrap_document_split. rewrite toy_fromstring_envelope.
  - rewrite strip_prefix_app, rev_app_distr, strip_prefix_app, rev_involutive.
    unfold toy_tostring. rewrite toy_decode_enc. reflexivity.
  - rewrite doc_open_head. discriminate.
Qed.

(** ** Runs on concrete inputs *)

(** Witness for C4: two Placemarks labelled [001] are both counted, and
    [out/001.kml] holds the second one's Output Document only. *)
Lemma segment_kml_count_witness :
  segment_kml ascii_isalnum ascii_upper toy_fromstring toy_tostring (u "in.kml") (u "out")
    world_collision =
  (Ok 2, snd (segment_kml ascii_isalnum ascii_upper toy_fromstring toy_tostring
                (u "in.kml") (u "out") world_collision)) /\
  2 = List.length (filter has_geometry (findall_desc (kml "Placemark") doc_collision)) /\
  exists d2, output_document ascii_upper toy_fromstring toy_tostring pm_b = Some d2 /\
    filter (fun q => ueqb (fst q) (out_path_of ascii_isalnum ascii_upper (u "out") pm_b))
      (w_files (snd (segment_kml ascii_isalnum ascii_upper toy_fromstring toy_tostring
                       (u "in.kml") (u "out") world_collision))) =
    [(out_path_of ascii_isalnum ascii_upper (u "out") pm_b, d2)].
Proof.
  assert (Hrun : segment_kml ascii_isalnum ascii_upper toy_fromstring toy_tostring
                   (u "in.kml") (u "out") world_collision =
                 (Ok 2, snd (segment_kml ascii_isalnum ascii_upper toy_fromstring toy_tostring
                               (u "in.kml") (u "out") world_collision)))
    by (vm_compute; reflexivity).
  split; [exact Hrun|].
  destruct (segment_kml_count ascii_isalnum ascii_upper toy_fromstring toy_tostring
              (u "in.kml") (u "out") (toy_tostring doc_collision) doc_collision world_collision
              _ 2 ltac:(vm_compute; reflexivity) ltac:(vm_compute; reflexivity) Hrun)
    as [Hn Hcol].
  split; [exact Hn|].
  apply (proj2 (Hcol pm_a pm_b ltac:(vm_compute; reflexivity) ltac:(vm_compute; reflexivity))).
Defined.

(** Witness for C6, with the stand-in library. *)
Lemma output_document_roundtrip_witness :
  exists s d g,
    output_document ascii_upper toy_fromstring toy_tostring pm_cd_geocodi = Some s /\
    toy_fromstring s = Some d /\
    findall_desc (kml "Placemark") d = [g] /\
    option_map text (find_child (kml "name") g) =
      Some (if is_nil (preferred_name ascii_upper pm_cd_geocodi) then None
            else Some (preferred_name ascii_upper pm_cd_geocodi)) /\
    tag g = tag pm_cd_geocodi /\ attrib g = attrib pm_cd_geocodi /\
    text g = text pm_cd_geocodi /\
    filter (fun c => negb (has_tag (kml "name") c)) (children g) =
    filter (fun c => negb (has_tag (kml "name") c)) (children pm_cd_geocodi).
Proof.
  apply (output_document_roundtrip ascii_upper toy_fromstring toy_tostring pm_cd_geocodi).
  - vm_compute. reflexivity.
  - apply toy_wrap_roundtrip.
  - vm_compute. reflexivity.
  - reflexivity.
  - vm_compute. reflexivity.
Defined.

(** The labels of the Placemarks read back from the Output Document of
    [pm], with the stand-in library. *)
Definition output_labels (pm : element) : option (list (option (option ustr))) :=
  match output_document ascii_upper toy_fromstring toy_tostring pm with
  | Some s =>
      option_map
        (fun d => map (fun g => option_map text (find_child (kml "name") g))
                      (findall_desc (kml "Placemark") d))
        (toy_fromstring s)
  | None => None
  end.

(** Counterexample to C6: the Placemark read back from the Output Document
    of [pm_cd_geocodi] is labelled [355030822], the source's label is
    [Setor X]; the Output Document of a Placemark holding a Placemark
    reads back with two Placemarks; and the Placemark of [pm_blank_label],
    whose resolved name is empty, reads back with no label text. *)
Lemma output_document_label_counterexample :
  (output_labels pm_cd_geocodi = Some [Some (Some (u "355030822"))] /\
   option_map text (find_child (kml "name") pm_cd_geocodi) = Some (Some (u "Setor X"))) /\
  option_map (@List.length _) (output_labels pm_outer) = Some 2 /\
  (preferred_name ascii_upper pm_blank_label = [] /\
   output_labels pm_blank_label = Some [Some None]).
Proof. vm_compute. repeat split. Qed.

(** Witness for C7. *)
Lemma segment_kml_source_unchanged_witness :
  read_tree (snd (alloc_tree doc_collision [])) (fst (alloc_tree doc_collision [])) =
    Some doc_collision /\
  store_incl (snd (alloc_tree doc_collision []))
    (w_heap (snd (segment_kml ascii_isalnum ascii_upper toy_fromstring toy_tostring
                    (u "in.kml") (u "out") world_collision))) /\
  read_tree (w_heap (snd (segment_kml ascii_isalnum ascii_upper toy_fromstring toy_tostring
                            (u "in.kml") (u "out") world_collision)))
    (fst (alloc_tree doc_collision [])) = Some doc_collision.
Proof.
  apply (segment_kml_source_unchanged ascii_isalnum ascii_upper toy_fromstring toy_tostring
           (u "in.kml") (u "out") (toy_tostring doc_collision) doc_collision world_collision).
  all: vm_compute; reflexivity.
Defined.

(** Witness for C8. *)
Lemma segment_kml_missing_input_witness :
  segment_kml ascii_isalnum ascii_upper toy_fromstring toy_tostring (u "in.kml") (u "out")
    world_empty = (Raise FileNotFoundError, world_empty).
Proof.
  apply segment_kml_missing_input; reflexivity.
Defined.

(** Witness for C9. *)
Lemma segment_kml_parse_error_witness :
  segment_kml ascii_isalnum ascii_upper toy_fromstring toy_tostring (u "in.kml") (u "out")
    world_bad =
  (Raise ParseError, mk_world [] (w_files world_bad) (dir_chain (u "out"))) /\
  In (u "out") (dir_chain (u "out") ++ []).
Proof.
  apply (segment_kml_parse_error ascii_isalnum ascii_upper toy_fromstring toy_tostring
           (u "in.kml") (u "out") (u "<kml") world_bad).
  all: vm_compute; reflexivity.
Defined.

(** Witness for C10: a [<Data>] entry without [name] and a blank
    [<SimpleData>] entry are passed over. *)
Lemma malformed_entries_skipped_witness :
  first_data_match ascii_upper ([] ++ data_no_name :: [data_entry "NOME" "B"]) =
    first_data_match ascii_upper ([] ++ [data_entry "NOME" "B"]) /\
  first_simple_match ascii_upper ([] ++ simple_blank :: [simple_setor]) =
    first_simple_match ascii_upper ([] ++ [simple_setor]).
Proof.
  split.
  - apply (proj1 (malformed_entries_skipped ascii_upper)). left. reflexivity.
  - apply (proj2 (malformed_entries_skipped ascii_upper)). right. simpl.
    repeat constructor.
Defined.

(** * Further properties of the program *)

(** ** Stripping *)

Lemma lstrip_app_spaces (ws s : ustr) :
  Forall (fun c => py_isspace c = true) ws -> lstrip (ws ++ s) = lstrip s.
Proof. induction 1 as [|c ws Hc _ IH]; simpl; [reflexivity | now rewrite Hc]. Qed.

Lemma lstrip_app_nonblank (s t : ustr) :
  forallb py_isspace s = false -> lstrip (s ++ t) = lstrip s ++ t.
Proof.
  induction s as [|c s IH]; simpl; [discriminate|].
  destruct (py_isspace c); simpl; [exact IH | reflexivity].
Qed.

Lemma forallb_Forall_space (s : ustr) :
  forallb py_isspace s = true -> Forall (fun c => py_isspace c = true) s.
Proof. intro H. apply Forall_forall. apply forallb_forall. exact H. Qed.

Lemma py_strip_spaces_left (ws s : ustr) :
  Forall (fun c => py_isspace c = true) ws -> py_strip (ws ++ s) = py_strip s.
Proof. intro H. unfold py_strip. rewrite lstrip_app_spaces by exact H. reflexivity. Qed.

Lemma py_strip_spaces_right (s ws : ustr) :
  Forall (fun c => py_isspace c = true) ws -> py_strip (s ++ ws) = py_strip s.
Proof.
  intro Hws. destruct (forallb py_isspace s) eqn:Hs.
  - rewrite (py_strip_all_space s (forallb_Forall_space s Hs)).
    apply py_strip_all_space. apply Forall_app. split; [apply forallb_Forall_space, Hs | exact Hws].
  - unfold py_strip. rewrite lstrip_app_nonblank by exact Hs.
    rewrite rev_app_distr. rewrite lstrip_app_spaces by (apply Forall_rev; exact Hws).
    reflexivity.
Qed.

Lemma lstrip_head (s : ustr) :
  lstrip s = [] \/ exists c r, lstrip s = c :: r /\ py_isspace c = false.
Proof.
  induction s as [|c s IH]; simpl; [left; reflexivity|].
  destruct (py_isspace c) eqn:E; [exact IH|]. right. exists c, s. split; [reflexivity|exact E].
Qed.

Lemma lstrip_suffix (s : ustr) : exists p, s = p ++ lstrip s.
Proof.
  induction s as [|c s [p IH]]; simpl; [exists []; reflexivity|].
  destruct (py_isspace c); [exists (c :: p); simpl; f_equal; exact IH | exists []; reflexivity].
Qed.

Lemma lstrip_fix (s : ustr) :
  (s = [] \/ exists c r, s = c :: r /\ py_isspace c = false) -> lstrip s = s.
Proof. intros [->|[c [r [-> Hc]]]]; simpl; [reflexivity|]. rewrite Hc. reflexivity. Qed.

Lemma lstrip_idem (s : ustr) : lstrip (lstrip s) = lstrip s.
Proof. apply lstrip_fix, lstrip_head. Qed.

Lemma py_strip_idem (s : ustr) : py_strip (py_strip s) = py_strip s.
Proof.
  unfold py_strip.
  set (r := lstrip (rev (lstrip s))).
  assert (Hr : lstrip (rev r) = rev r).
  { apply lstrip_fix. destruct (lstrip_head s) as [Ht | [c [t' [Ht Hc]]]].
    - left. unfold r. rewrite Ht. reflexivity.
    - destruct (lstrip_suffix (rev (lstrip s))) as [p Hp]. fold r in Hp.
      rewrite Ht in Hp. cbn [rev] in Hp.
      destruct (list_eq_dec N.eq_dec r []) as [E|E]; [left; rewrite E; reflexivity|].
      right. destruct (exists_last E) as [r0 [x Ex]].
      rewrite Ex, app_assoc in Hp. apply app_inj_tail in Hp as [_ <-].
      exists c, (rev r0). rewrite Ex, rev_unit. split; [reflexivity|exact Hc]. }
  rewrite Hr, rev_involutive. unfold r. rewrite lstrip_idem. reflexivity.
Qed.

(** ** The sanitizer *)

Lemma ascii_isalnum_not_space (c : N) : ascii_isalnum c = true -> py_isspace c = false.
Proof.
  intro H. destruct (py_isspace c) eqn:E; [exfalso|reflexivity].
  unfold ascii_isalnum, ascii_alnum, py_isspace in *.
  repeat match goal with
         | H : (_ || _) = true |- _ => apply orb_prop in H as [H|H]
         | H : (_ && _) = true |- _ => apply andb_prop in H as [? ?]
         | H : (_ <=? _)%N = true |- _ => apply N.leb_le in H
         | H : (_ =? _)%N = true |- _ => apply N.eqb_eq in H
         end; lia.
Qed.

Lemma safe_not_space (py_isalnum : N -> bool)
  (Hsp : forall c, py_isalnum c = true -> py_isspace c = false) (c : N) :
  safe_char py_isalnum c = true -> py_isspace c = false.
Proof.
  unfold safe_char. destruct (py_isalnum c) eqn:Ha; [intros _; apply Hsp, Ha|].
  cbn [orb]. intro H.
  repeat (apply orb_prop in H as [H|H]); apply N.eqb_eq in H; subst c; reflexivity.
Qed.

Lemma sub_disallowed_safe (py_isalnum : N -> bool) (s : ustr) :
  Forall (fun c => safe_char py_isalnum c = true) s -> sub_disallowed py_isalnum s = s.
Proof.
  unfold sub_disallowed. induction 1 as [|c s Hc _ IH]; [reflexivity|].
  cbn [map]. rewrite IH. f_equal.
  unfold safe_char, is_word in *.
  destruct (py_isalnum c), (c =? underscore)%N, (py_isspace c), (c =? hyphen)%N,
    (c =? period)%N; cbn in *; congruence.
Qed.

Lemma sub_disallowed_no_space (py_isalnum : N -> bool) (s : ustr) :
  Forall (fun c => py_isspace c = false) s ->
  Forall (fun c => py_isspace c = false) (sub_disallowed py_isalnum s).
Proof.
  unfold sub_disallowed. induction 1 as [|c s Hc _ IH]; cbn [map]; constructor; [|exact IH].
  match goal with |- py_isspace (if ?b then _ else _) = false => destruct b end;
    [exact Hc | reflexivity].
Qed.

Lemma sub_spaces_no_space (b : bool) (s : ustr) :
  Forall (fun c => py_isspace c = false) s -> sub_spaces b s = s.
Proof.
  intro H. revert b. induction H as [|c s Hc _ IH]; intros b; simpl; [reflexivity|].
  rewrite Hc, IH. reflexivity.
Qed.

Lemma sanitize_filename_nonempty (py_isalnum : N -> bool) (s : ustr) :
  sanitize_filename py_isalnum s <> [].
Proof. unfold sanitize_filename. destruct (firstn 180 _); discriminate. Qed.

Lemma sanitize_filename_short (py_isalnum : N -> bool) (s : ustr) :
  List.length (sanitize_filename py_isalnum s) <= 180.
Proof.
  unfold sanitize_filename. destruct (firstn 180 _) eqn:E; [simpl; lia|].
  rewrite <- E. apply firstn_le_length.
Qed.

Lemma sanitize_filename_safe (py_isalnum : N -> bool)
  (Halnum : forall c, ascii_alnum c = true -> py_isalnum c = true) (s : ustr) :
  Forall (fun c => safe_char py_isalnum c = true) (sanitize_filename py_isalnum s).
Proof.
  unfold sanitize_filename. destruct (firstn 180 _) eqn:E.
  - repeat constructor; unfold safe_char; rewrite Halnum by reflexivity; reflexivity.
  - rewrite <- E. apply Forall_firstn_gen, sub_spaces_safe, sub_disallowed_kept.
Qed.

Lemma sanitize_filename_safe_id (py_isalnum : N -> bool)
  (Hsp : forall c, py_isalnum c = true -> py_isspace c = false) (s : ustr) :
  s <> [] -> List.length s <= 180 ->
  Forall (fun c => safe_char py_isalnum c = true) s ->
  sanitize_filename py_isalnum s = s.
Proof.
  intros Hne Hlen Hs.
  assert (Hns : Forall (fun c => py_isspace c = false) s).
  { eapply Forall_impl; [|exact Hs]. intros c. apply (safe_not_space py_isalnum Hsp). }
  unfold sanitize_filename.
  rewrite py_strip_no_space by exact Hns.
  rewrite sub_disallowed_safe by exact Hs.
  rewrite sub_spaces_no_space by exact Hns.
  rewrite firstn_all2 by lia.
  destruct s; [congruence|reflexivity].
Qed.

Lemma sanitize_filename_no_slash (py_isalnum : N -> bool) (Hslash : py_isalnum slash = false)
  (s : ustr) : ~ In slash (sanitize_filename py_isalnum s).
Proof.
  unfold sanitize_filename. destruct (firstn 180 _) as [|c r] eqn:E.
  - intro H. vm_compute in H. repeat (destruct H as [H|H]; [discriminate H|]). exact H.
  - rewrite <- E. intro H.
    pose proof (Forall_firstn_gen _ 180 _
                  (sub_spaces_safe py_isalnum false _ (sub_disallowed_kept py_isalnum (py_strip s))))
      as Hs.
    rewrite Forall_forall in Hs. specialize (Hs slash H).
    unfold safe_char in Hs. rewrite Hslash in Hs. vm_compute in Hs. discriminate Hs.
Qed.

(** X1: a name that is already a safe file name (non-empty, at most 180
    characters, made of alphanumerics, [_], [-] and [.]) is kept as it is
    by [sanitize_filename]. *)
Theorem sanitize_filename_fixed (py_isalnum : N -> bool)
  (Hsp : forall c, py_isalnum c = true -> py_isspace c = false) (s : ustr) :
  s <> [] -> List.length s <= 180 ->
  Forall (fun c => safe_char py_isalnum c = true) s ->
  sanitize_filename py_isalnum s = s.
Proof. apply (sanitize_filename_safe_id py_isalnum Hsp). Qed.

(** X2: sanitizing a second time changes nothing. *)
Theorem sanitize_filename_idempotent (py_isalnum : N -> bool)
  (Hsp : forall c, py_isalnum c = true -> py_isspace c = false)
  (Halnum : forall c, ascii_alnum c = true -> py_isalnum c = true) (s : ustr) :
  sanitize_filename py_isalnum (sanitize_filename py_isalnum s) = sanitize_filename py_isalnum s.
Proof.
  apply (sanitize_filename_safe_id py_isalnum Hsp).
  - apply sanitize_filename_nonempty.
  - apply sanitize_filename_short.
  - apply (sanitize_filename_safe py_isalnum Halnum).
Qed.

(** X3: a non-empty name without whitespace keeps its length, up to the
    limit of 180: every other character is kept or replaced one for one. *)
Theorem sanitize_filename_length (py_isalnum : N -> bool) (s : ustr) :
  s <> [] -> Forall (fun c => py_isspace c = false) s ->
  List.length (sanitize_filename py_isalnum s) = Nat.min 180 (List.length s).
Proof.
  intros Hne Hns. unfold sanitize_filename.
  rewrite py_strip_no_space by exact Hns.
  rewrite sub_spaces_no_space by (apply sub_disallowed_no_space, Hns).
  destruct (firstn 180 (sub_disallowed py_isalnum s)) as [|c r] eqn:E.
  - apply (f_equal (@List.length N)) in E.
    rewrite length_firstn in E. unfold sub_disallowed in E. rewrite length_map in E.
    destruct s; [congruence|]. simpl in E. lia.
  - rewrite <- E, length_firstn. unfold sub_disallowed. rewrite length_map. reflexivity.
Qed.

(** X4: whitespace around a name does not change its file name. *)
Theorem sanitize_filename_surrounding_space (py_isalnum : N -> bool) (ws1 s ws2 : ustr) :
  Forall (fun c => py_isspace c = true) ws1 ->
  Forall (fun c => py_isspace c = true) ws2 ->
  sanitize_filename py_isalnum (ws1 ++ s ++ ws2) = sanitize_filename py_isalnum s.
Proof.
  intros H1 H2. unfold sanitize_filename.
  rewrite py_strip_spaces_left by exact H1. rewrite py_strip_spaces_right by exact H2.
  reflexivity.
Qed.

(** ** The name resolver *)

Lemma data_value_stripped (d : element) : py_strip (data_value d) = data_value d.
Proof.
  unfold data_value. destruct (find_child _ d) as [v|]; [|reflexivity].
  destruct (text v) as [t|]; [|reflexivity]. destruct (is_nil t); [reflexivity|].
  apply py_strip_idem.
Qed.

Lemma first_data_match_stripped (char_upper : N -> ustr) (ds : list element) (v : ustr) :
  first_data_match char_upper ds = Some v -> py_strip v = v /\ v <> [].
Proof.
  induction ds as [|d ds IH]; cbn [first_data_match]; [discriminate|].
  destruct (in_preferred_keys _ && negb (is_nil (data_value d))) eqn:E; [|exact IH].
  intros [= <-]. split; [apply data_value_stripped|].
  apply andb_prop in E as [_ E]. destruct (data_value d); [discriminate|congruence].
Qed.

Lemma first_simple_match_stripped (char_upper : N -> ustr) (ss : list element) (v : ustr) :
  first_simple_match char_upper ss = Some v -> py_strip v = v /\ v <> [].
Proof.
  induction ss as [|x ss IH]; cbn [first_simple_match]; [discriminate|].
  destruct (in_preferred_keys _ && negb (is_nil (py_strip (or_empty (text x))))) eqn:E;
    [|exact IH].
  intros [= <-]. split; [apply py_strip_idem|].
  apply andb_prop in E as [_ E]. destruct (py_strip _); [discriminate|congruence].
Qed.

Lemma first_schema_match_stripped (char_upper : N -> ustr) (sds : list element) (v : ustr) :
  first_schema_match char_upper sds = Some v -> py_strip v = v /\ v <> [].
Proof.
  induction sds as [|sd sds IH]; cbn [first_schema_match]; [discriminate|].
  destruct (first_simple_match char_upper _) as [v'|] eqn:E; [|exact IH].
  intros [= <-]. exact (first_simple_match_stripped _ _ _ E).
Qed.

Lemma extended_data_name_stripped (char_upper : N -> ustr) (pm : element) (v : ustr) :
  extended_data_name char_upper pm = Some v -> py_strip v = v /\ v <> [].
Proof.
  unfold extended_data_name. destruct (find_child _ pm) as [ext|]; [|discriminate].
  destruct (first_data_match char_upper _) as [v'|] eqn:E.
  - intros [= <-]. exact (first_data_match_stripped _ _ _ E).
  - apply first_schema_match_stripped.
Qed.

Lemma preferred_name_stripped_aux (char_upper : N -> ustr) (pm : element) :
  py_strip (preferred_name char_upper pm) = preferred_name char_upper pm.
Proof.
  unfold preferred_name. destruct (extended_data_name char_upper pm) as [v|] eqn:E.
  - exact (proj1 (extended_data_name_stripped _ _ _ E)).
  - destruct (find_child _ pm) as [n|]; [|vm_compute; reflexivity].
    destruct (text n) as [t|]; [|vm_compute; reflexivity].
    destruct (is_nil t); [vm_compute; reflexivity|]. apply py_strip_idem.
Qed.

Lemma find_set_first_text_other (t t' : ustr) (v : option ustr) (cs cs' : list element) :
  t' <> t -> set_first_text t v cs = Some cs' -> find (has_tag t') cs' = find (has_tag t') cs.
Proof.
  intros Hne. revert cs'. induction cs as [|c cs IH]; intros cs' H;
    cbn [set_first_text] in H; [discriminate|].
  destruct (has_tag t c) eqn:Ht.
  - injection H as <-. cbn [find].
    assert (Hc : has_tag t' c = false).
    { unfold has_tag in *. apply ueqb_spec in Ht. rewrite Ht.
      destruct (ueqb t t') eqn:E; [apply ueqb_spec in E; congruence | reflexivity]. }
    replace (has_tag t' (set_text_e v c)) with (has_tag t' c) by (destruct c; reflexivity).
    rewrite Hc. reflexivity.
  - destruct (set_first_text t v cs) as [cs''|] eqn:E; simpl in H; [|discriminate].
    injection H as <-. cbn [find]. rewrite (IH cs'' eq_refl). reflexivity.
Qed.

Lemma find_app_last {A} (f : A -> bool) (l : list A) (x : A) :
  f x = false -> find f (l ++ [x]) = find f l.
Proof.
  intro Hx. induction l as [|y l IH]; simpl; [rewrite Hx; reflexivity|].
  destruct (f y); [reflexivity|exact IH].
Qed.

(** Relabelling leaves every child lookup other than [kml:name] alone. *)
Lemma find_child_set_label_other (t : ustr) (n : ustr) (e : element) :
  t <> kml "name" -> find_child t (set_label n e) = find_child t e.
Proof.
  intros Hne. destruct e as [t0 a x y cs]. unfold find_child. cbn [set_label].
  destruct (set_first_text (kml "name") (Some n) cs) as [cs'|] eqn:Hs; cbn [children].
  - apply (find_set_first_text_other _ _ _ _ _ Hne Hs).
  - apply find_app_last. unfold has_tag. cbn [tag].
    destruct (ueqb (kml "name") t) eqn:E; [apply ueqb_spec in E; congruence | reflexivity].
Qed.

Lemma find_child_name_set_label (n : ustr) (e : element) :
  exists c, find_child (kml "name") (set_label n e) = Some c /\ text c = Some n.
Proof.
  destruct e as [t a x y cs]. unfold find_child. cbn [set_label].
  destruct (set_first_text (kml "name") (Some n) cs) as [cs'|] eqn:Hs; cbn [children].
  - apply (set_first_text_find _ _ _ _ Hs).
  - rewrite find_app_none by (apply (set_first_text_none _ _ _ Hs)).
    cbn [find]. unfold has_tag. cbn [tag]. rewrite ueqb_refl.
    eexists. split; reflexivity.
Qed.

Lemma extended_data_name_set_label (char_upper : N -> ustr) (n : ustr) (e : element) :
  extended_data_name char_upper (set_label n e) = extended_data_name char_upper e.
Proof.
  unfold extended_data_name. rewrite find_child_set_label_other; [reflexivity|].
  intro E. vm_compute in E. discriminate E.
Qed.

(** X5: the resolved name has no whitespace at either end. *)
Theorem preferred_name_trimmed (char_upper : N -> ustr) (pm : element) :
  py_strip (preferred_name char_upper pm) = preferred_name char_upper pm.
Proof. apply preferred_name_stripped_aux. Qed.

(** X6: a feature relabelled with its resolved name, as [segment_kml]
    does to the clone, resolves to the same name again, except that an
    empty resolved name comes back as "setor". *)
Theorem preferred_name_relabel (char_upper : N -> ustr) (e : element) :
  preferred_name char_upper (set_label (preferred_name char_upper e) e) =
  match preferred_name char_upper e with [] => u "setor" | n => n end.
Proof.
  remember (preferred_name char_upper e) as n eqn:En.
  unfold preferred_name. rewrite extended_data_name_set_label.
  destruct (extended_data_name char_upper e) as [v|] eqn:E.
  - unfold preferred_name in En. rewrite E in En. cbv beta iota in En. subst n.
    destruct (extended_data_name_stripped _ _ _ E) as [_ Hne].
    destruct v; [congruence|reflexivity].
  - destruct (find_child_name_set_label n e) as [c [Hc Hx]]. rewrite Hc.
    cbv beta iota. rewrite Hx.
    destruct n as [|x n']; [reflexivity|]. cbn [is_nil].
    rewrite En. apply preferred_name_stripped_aux.
Qed.

(** ** The document wrapper *)

(** X7: [wrap_document] is injective: different fragments give different
    documents. *)
Theorem wrap_document_injective (a b : ustr) :
  wrap_document a = wrap_document b -> a = b.
Proof.
  rewrite !wrap_document_split. intro H.
  apply app_inv_head in H. apply app_inv_tail in H. exact H.
Qed.

(** ** Paths *)

Lemma path_join_rel (a b : ustr) (c : N) (b' : ustr) :
  b = c :: b' -> c <> slash -> is_nil a = false ->
  (path_join a b = a ++ b /\ last a 0%N = slash) \/ path_join a b = a ++ [slash] ++ b.
Proof.
  intros -> Hc Ha. unfold path_join.
  destruct (c =? slash)%N eqn:E; [apply N.eqb_eq in E; congruence|].
  rewrite Ha.
  destruct (last a 0 =? slash)%N eqn:El; [left; split; [reflexivity|apply N.eqb_eq, El]|right; reflexivity].
Qed.

Lemma lookup_file_write_same (p d : ustr) (files : list (ustr * ustr)) :
  lookup_file p ((p, d) :: files) = Some d.
Proof. unfold lookup_file. cbn [find fst]. rewrite ueqb_refl. reflexivity. Qed.

Lemma lookup_file_write_other (p p' d : ustr) (files : list (ustr * ustr)) :
  p' <> p ->
  lookup_file p ((p', d) :: filter (fun q => negb (ueqb (fst q) p')) files) = lookup_file p files.
Proof.
  intro Hne. unfold lookup_file. cbn [find fst].
  destruct (ueqb p' p) eqn:E; [apply ueqb_spec in E; congruence|].
  f_equal. induction files as [|q files IH]; cbn [filter find]; [reflexivity|].
  destruct (ueqb (fst q) p') eqn:Eq; cbn [negb].
  - destruct (ueqb (fst q) p) eqn:Ep; [|exact IH].
    apply ueqb_spec in Eq. apply ueqb_spec in Ep. congruence.
  - cbn [find]. destruct (ueqb (fst q) p); [reflexivity|exact IH].
Qed.

Section SegmentFacts.

Variable py_isalnum : N -> bool.
Variable char_upper : N -> ustr.
Variable et_fromstring : ustr -> option element.
Variable et_tostring : element -> ustr.

Lemma body_result_files (outdir : ustr) (e : element) (t : nat) (dirs : list ustr)
  (files : list (ustr * ustr)) :
  snd (body_result py_isalnum char_upper et_fromstring et_tostring outdir e t dirs files) = files \/
  has_geometry e = true /\ exists d,
    snd (body_result py_isalnum char_upper et_fromstring et_tostring outdir e t dirs files) =
    (out_path_of py_isalnum char_upper outdir e, d)
      :: filter (fun q => negb (ueqb (fst q) (out_path_of py_isalnum char_upper outdir e))) files.
Proof.
  unfold body_result. destruct (has_geometry e) eqn:Hg; cbn [negb]; [|left; reflexivity].
  destruct (et_fromstring (et_tostring e)); [|left; reflexivity].
  destruct (existsb _ dirs); [left; reflexivity|].
  right. split; [reflexivity|]. eexists. reflexivity.
Qed.

(** Every file after the loop was there before or is the output path of a
    feature with geometry. *)
Lemma loop_result_files_from (outdir : ustr) (es : list element) (t : nat) (dirs : list ustr)
  (files : list (ustr * ustr)) (q : ustr * ustr) :
  In q (snd (loop_result py_isalnum char_upper et_fromstring et_tostring outdir es t dirs files)) ->
  In q files \/ exists e, In e es /\ has_geometry e = true /\
                          fst q = out_path_of py_isalnum char_upper outdir e.
Proof.
  revert t files. induction es as [|e es IH]; intros t files H; cbn [loop_result] in H;
    [left; exact H|].
  destruct (body_result py_isalnum char_upper et_fromstring et_tostring outdir e t dirs files)
    as [o f'] eqn:Eb.
  assert (Hb : In q f' -> In q files \/
                 (has_geometry e = true /\ fst q = out_path_of py_isalnum char_upper outdir e)).
  { pose proof (body_result_files outdir e t dirs files) as Hf. rewrite Eb in Hf.
    cbn [snd] in Hf. destruct Hf as [->|[Hg [d ->]]]; [left; exact H0|].
    intros [<-|Hin]; [right; split; [exact Hg|reflexivity]|].
    left. apply filter_In in Hin. exact (proj1 Hin). }
  destruct o as [t'|x]; cbn [snd] in H.
  - apply IH in H as [H|[e' [Hin [Hg' Hq]]]].
    + destruct (Hb H) as [H'|[Hg Hq]]; [left; exact H'|].
      right. exists e. split; [left; reflexivity|]. split; assumption.
    + right. exists e'. split; [right; exact Hin|]. split; assumption.
  - destruct (Hb H) as [H'|[Hg Hq]]; [left; exact H'|].
    right. exists e. split; [left; reflexivity|]. split; assumption.
Qed.

(** A path that no feature with geometry writes keeps its file. *)
Lemma loop_result_frame (outdir p : ustr) (es : list element) (t : nat) (dirs : list ustr)
  (files : list (ustr * ustr)) :
  (forall e, In e es -> has_geometry e = true -> out_path_of py_isalnum char_upper outdir e <> p) ->
  lookup_file p (snd (loop_result py_isalnum char_upper et_fromstring et_tostring
                        outdir es t dirs files)) = lookup_file p files.
Proof.
  revert t files. induction es as [|e es IH]; intros t files H; [reflexivity|].
  cbn [loop_result].
  destruct (body_result py_isalnum char_upper et_fromstring et_tostring outdir e t dirs files)
    as [o f'] eqn:Eb.
  assert (Hb : lookup_file p f' = lookup_file p files).
  { pose proof (body_result_files outdir e t dirs files) as Hf. rewrite Eb in Hf.
    cbn [snd] in Hf. destruct Hf as [->|[Hg [d ->]]]; [reflexivity|].
    apply lookup_file_write_other. apply H; [left; reflexivity|exact Hg]. }
  destruct o as [t'|x]; cbn [snd].
  - rewrite IH; [exact Hb|]. intros e' Hin Hg. apply H; [right; exact Hin|exact Hg].
  - exact Hb.
Qed.

Lemma existsb_false_In {A} (f : A -> bool) (l : list A) (x : A) :
  existsb f l = false -> In x l -> f x = false.
Proof.
  intros H Hx. destruct (f x) eqn:E; [|reflexivity].
  assert (existsb f l = true) by (apply existsb_exists; exists x; split; assumption).
  congruence.
Qed.

(** After a loop that ends normally, the output path of every feature with
    geometry holds the Output Document of a feature with geometry and the
    same output path. *)
Lemma loop_result_written (outdir : ustr) (es : list element) (t n : nat) (dirs : list ustr)
  (files files' : list (ustr * ustr)) (e : element) :
  loop_result py_isalnum char_upper et_fromstring et_tostring outdir es t dirs files = (Ok n, files') ->
  In e es -> has_geometry e = true ->
  exists e' d, In e' es /\ has_geometry e' = true /\
    out_path_of py_isalnum char_upper outdir e' = out_path_of py_isalnum char_upper outdir e /\
    output_document char_upper et_fromstring et_tostring e' = Some d /\
    lookup_file (out_path_of py_isalnum char_upper outdir e) files' = Some d.
Proof.
  revert t files e. induction es as [|e0 es IH]; intros t files e H Hin Hg; [destruct Hin|].
  cbn [loop_result] in H.
  destruct (body_result py_isalnum char_upper et_fromstring et_tostring outdir e0 t dirs files)
    as [[t'|x] f'] eqn:Eb; [|discriminate].
  destruct Hin as [<-|Hin].
  2: { destruct (IH t' f' e H Hin Hg) as [e' [d [Hin' Hrest]]].
       exists e', d. split; [right; exact Hin'|exact Hrest]. }
  destruct (body_result_ok py_isalnum char_upper et_fromstring et_tostring _ _ _ _ _ _ _ Eb Hg)
    as [_ [d0 [Hd0 Ef']]].
  destruct (existsb (fun x => has_geometry x && ueqb (out_path_of py_isalnum char_upper outdir x)
                                                  (out_path_of py_isalnum char_upper outdir e0)) es)
    eqn:Ex.
  - apply existsb_exists in Ex as [x [Hx Hxx]]. apply andb_prop in Hxx as [Hgx Hpx].
    apply ueqb_spec in Hpx.
    destruct (IH t' f' x H Hx Hgx) as [e' [d [Hin' [Hg' [Hp' [Hd Hl]]]]]].
    exists e', d. split; [right; exact Hin'|]. split; [exact Hg'|].
    split; [congruence|]. split; [exact Hd|]. rewrite <- Hpx. exact Hl.
  - exists e0, d0. split; [left; reflexivity|]. split; [exact Hg|]. split; [reflexivity|].
    split; [exact Hd0|].
    pose proof (loop_result_frame outdir (out_path_of py_isalnum char_upper outdir e0) es t' dirs f')
      as Hfr.
    rewrite H in Hfr. cbn [snd] in Hfr. rewrite Hfr.
    + rewrite Ef'. apply lookup_file_write_same.
    + intros x Hx Hgx Heq. pose proof (existsb_false_In _ _ x Ex Hx) as Hf.
      cbv beta in Hf. rewrite Hgx, Heq, ueqb_refl in Hf. discriminate Hf.
Qed.

(** The files at the end of any run: unchanged, or those of the loop over
    the parsed source's Placemarks. *)
Lemma segment_kml_files (input outdir : ustr) (w : world) :
  w_files (snd (segment_kml py_isalnum char_upper et_fromstring et_tostring input outdir w))
    = w_files w \/
  exists c doc, lookup_file input (w_files w) = Some c /\ et_fromstring c = Some doc /\
    is_nil outdir = false /\ existsb (is_file w) (dir_chain outdir) = false /\
    is_dir w input = false /\
    w_files (snd (segment_kml py_isalnum char_upper et_fromstring et_tostring input outdir w)) =
    snd (loop_result py_isalnum char_upper et_fromstring et_tostring outdir
           (findall_desc (kml "Placemark") doc) 0 (dir_chain outdir ++ w_dirs w) (w_files w)).
Proof.
  destruct w as [h files dirs]. cbn [w_files w_dirs w_heap].
  remember (segment_kml py_isalnum char_upper et_fromstring et_tostring input outdir
              (mk_world h files dirs)) as r eqn:Er.
  pose proof Er as Er0.
  unfold segment_kml in Er.
  destruct (is_file (mk_world h files dirs) input || is_dir (mk_world h files dirs) input) eqn:Hex.
  2: { left. rewrite (bind_ok _ _ _ false (mk_world h files dirs)) in Er
         by (unfold path_exists; rewrite Hex; reflexivity).
       rewrite Er. reflexivity. }
  rewrite (bind_ok _ _ _ true (mk_world h files dirs)) in Er
    by (unfold path_exists; rewrite Hex; reflexivity).
  cbv beta in Er. cbn [negb] in Er.
  destruct (is_nil outdir) eqn:Hnil.
  { left. rewrite (bind_raise _ _ _ FileNotFoundError (mk_world h files dirs)) in Er
      by (unfold os_makedirs; rewrite Hnil; reflexivity). rewrite Er. reflexivity. }
  destruct (existsb (is_file (mk_world h files dirs)) (dir_chain outdir)) eqn:Hch.
  { left. rewrite (bind_raise _ _ _ OSError (mk_world h files dirs)) in Er
      by (unfold os_makedirs; rewrite Hnil, Hch; reflexivity). rewrite Er. reflexivity. }
  rewrite (bind_ok _ _ _ tt (mk_world h files (dir_chain outdir ++ dirs))) in Er
    by (unfold os_makedirs; rewrite Hnil; cbn [w_heap w_files w_dirs]; rewrite Hch; reflexivity).
  destruct (is_dir (mk_world h files (dir_chain outdir ++ dirs)) input) eqn:Hd1.
  { left. rewrite (bind_raise _ _ _ OSError (mk_world h files (dir_chain outdir ++ dirs))) in Er
      by (unfold et_parse; rewrite Hd1; reflexivity). rewrite Er. reflexivity. }
  destruct (lookup_file input files) as [c|] eqn:Hc.
  2: { left. rewrite (bind_raise _ _ _ FileNotFoundError
                        (mk_world h files (dir_chain outdir ++ dirs))) in Er
         by (unfold et_parse; rewrite Hd1; cbn [w_files]; rewrite Hc; reflexivity).
       rewrite Er. reflexivity. }
  destruct (et_fromstring c) as [doc|] eqn:Hp.
  2: { left. rewrite (bind_raise _ _ _ ParseError (mk_world h files (dir_chain outdir ++ dirs))) in Er
         by (unfold et_parse; rewrite Hd1; cbn [w_files]; rewrite Hc; unfold fromstring;
             rewrite Hp; reflexivity).
       rewrite Er. reflexivity. }
  right. exists c, doc.
  assert (Hd : is_dir (mk_world h files dirs) input = false).
  { unfold is_dir in *. cbn [w_dirs] in *. rewrite existsb_app in Hd1.
    apply orb_false_iff in Hd1. exact (proj2 Hd1). }
  do 4 (split; [first [reflexivity | assumption]|]).
  split; [exact Hd|].
  destruct (alloc_tree doc h) as [root h0] eqn:Ha.
  destruct (segment_kml_effect py_isalnum char_upper et_fromstring et_tostring input outdir c doc
              root h0 (mk_world h files dirs) Hc Hp Hnil Hch Hd Ha) as [h' [_ [_ E]]].
  rewrite Er0, E. reflexivity.
Qed.

(** X8: a run writes nowhere but in [outdir]: whatever its outcome, every
    file after it was there before, or the source parses and the file's
    path is [outdir] followed by the sanitized resolved name of one of its
    Placemarks with geometry and [.kml], a name that is not empty and holds
    no [/]; a [/] comes between them, or [outdir] already ends with one. *)
Theorem segment_kml_writes_in_outdir (Hslash : py_isalnum slash = false)
  (input outdir : ustr) (w : world) (q : ustr * ustr) :
  In q (w_files (snd (segment_kml py_isalnum char_upper et_fromstring et_tostring
                        input outdir w))) ->
  In q (w_files w) \/
  exists c doc e nm, lookup_file input (w_files w) = Some c /\ et_fromstring c = Some doc /\
    In e (findall_desc (kml "Placemark") doc) /\ has_geometry e = true /\
    nm = sanitize_filename py_isalnum (preferred_name char_upper e) /\
    nm <> [] /\ ~ In slash nm /\
    ((fst q = outdir ++ nm ++ u ".kml" /\ last outdir 0%N = slash) \/
     fst q = outdir ++ [slash] ++ nm ++ u ".kml").
Proof.
  intros Hin.
  destruct (segment_kml_files input outdir w) as [E|[c [doc [Hc [Hp [Hnil [_ [_ E]]]]]]]];
    rewrite E in Hin; [left; exact Hin|].
  apply loop_result_files_from in Hin as [Hin|[e [He [Hg Hq]]]]; [left; exact Hin|].
  right. exists c, doc, e, (sanitize_filename py_isalnum (preferred_name char_upper e)).
  do 4 (split; [assumption|]).
  split; [reflexivity|].
  split; [apply sanitize_filename_nonempty|].
  split; [apply (sanitize_filename_no_slash py_isalnum Hslash)|].
  rewrite Hq. unfold out_path_of.
  pose proof (sanitize_filename_nonempty py_isalnum (preferred_name char_upper e)) as Hne.
  pose proof (sanitize_filename_no_slash py_isalnum Hslash (preferred_name char_upper e)) as Hns.
  destruct (sanitize_filename py_isalnum (preferred_name char_upper e)) as [|c0 nm'];
    [congruence|].
  apply (path_join_rel outdir _ c0 (nm' ++ u ".kml")); [reflexivity| |exact Hnil].
  intro E0. apply Hns. left. exact E0.
Qed.

(** X10: after a run that ends normally, the output path of every
    Placemark with geometry holds a file, the Output Document of a
    Placemark with geometry that has the same output path. *)
Theorem segment_kml_every_feature_written (input outdir c : ustr) (doc e : element)
  (w w' : world) (n : nat) :
  lookup_file input (w_files w) = Some c ->
  et_fromstring c = Some doc ->
  segment_kml py_isalnum char_upper et_fromstring et_tostring input outdir w = (Ok n, w') ->
  In e (findall_desc (kml "Placemark") doc) -> has_geometry e = true ->
  exists e' d, In e' (findall_desc (kml "Placemark") doc) /\ has_geometry e' = true /\
    out_path_of py_isalnum char_upper outdir e' = out_path_of py_isalnum char_upper outdir e /\
    output_document char_upper et_fromstring et_tostring e' = Some d /\
    lookup_file (out_path_of py_isalnum char_upper outdir e) (w_files w') = Some d.
Proof.
  intros Hc Hp H Hin Hg.
  destruct (segment_kml_ok_pre py_isalnum char_upper et_fromstring et_tostring
              input outdir c w w' n Hc H) as [Hnil [Hch Hd]].
  destruct (alloc_tree doc (w_heap w)) as [root h0] eqn:Ha.
  destruct (segment_kml_effect py_isalnum char_upper et_fromstring et_tostring
              input outdir c doc root h0 w Hc Hp Hnil Hch Hd Ha) as [h' [_ [_ E]]].
  rewrite E in H. clear E.
  destruct (loop_result py_isalnum char_upper et_fromstring et_tostring outdir
              (findall_desc (kml "Placemark") doc) 0 (dir_chain outdir ++ w_dirs w) (w_files w))
    as [o files'] eqn:El.
  cbn [fst snd] in H. injection H as -> <-. cbn [w_files].
  apply (loop_result_written outdir _ 0 n _ _ _ e El Hin Hg).
Qed.

(** X11: an empty output directory name makes [os.makedirs] raise
    [FileNotFoundError] once the input exists, before anything is read
    or written. *)
Theorem segment_kml_empty_outdir (input : ustr) (w : world) :
  is_file w input || is_dir w input = true ->
  segment_kml py_isalnum char_upper et_fromstring et_tostring input [] w =
  (Raise FileNotFoundError, w).
Proof.
  intros Hex. unfold segment_kml.
  rewrite (bind_ok _ _ _ true w) by (unfold path_exists; rewrite Hex; reflexivity).
  cbv beta. cbn [negb].
  apply bind_raise. reflexivity.
Qed.

(** X12: an input path that is a directory passes the existence check;
    the output directories are created and the parse raises [OSError],
    with no file written. *)
Theorem segment_kml_input_dir (input outdir : ustr) (w : world) :
  is_dir w input = true -> is_nil outdir = false ->
  existsb (is_file w) (dir_chain outdir) = false ->
  segment_kml py_isalnum char_upper et_fromstring et_tostring input outdir w =
  (Raise OSError, mk_world (w_heap w) (w_files w) (dir_chain outdir ++ w_dirs w)).
Proof.
  intros Hd Hnil Hch. destruct w as [h files dirs]. cbn [w_files w_dirs w_heap] in *.
  unfold segment_kml.
  rewrite (bind_ok _ _ _ true (mk_world h files dirs))
    by (unfold path_exists; rewrite Hd, orb_true_r; reflexivity).
  cbv beta. cbn [negb].
  rewrite (bind_ok _ _ _ tt (mk_world h files (dir_chain outdir ++ dirs)))
    by (unfold os_makedirs; rewrite Hnil; cbn [w_heap w_files w_dirs]; rewrite Hch; reflexivity).
  apply bind_raise. unfold et_parse, is_dir in *. cbn [w_dirs] in *.
  rewrite existsb_app, Hd, orb_true_r. reflexivity.
Qed.

(** X13: a source with no Placemark that has geometry gives a run that
    returns 0 and leaves the files as they were. *)
Theorem segment_kml_no_features (input outdir c : ustr) (doc : element) (w : world) :
  lookup_file input (w_files w) = Some c ->
  et_fromstring c = Some doc ->
  is_nil outdir = false ->
  existsb (is_file w) (dir_chain outdir) = false ->
  is_dir w input = false ->
  filter has_geometry (findall_desc (kml "Placemark") doc) = [] ->
  fst (segment_kml py_isalnum char_upper et_fromstring et_tostring input outdir w) = Ok 0 /\
  w_files (snd (segment_kml py_isalnum char_upper et_fromstring et_tostring input outdir w))
    = w_files w.
Proof.
  intros Hc Hp Hnil Hch Hd Hnone.
  destruct (alloc_tree doc (w_heap w)) as [root h0] eqn:Ha.
  destruct (segment_kml_effect py_isalnum char_upper et_fromstring et_tostring
              input outdir c doc root h0 w Hc Hp Hnil Hch Hd Ha) as [h' [_ [_ E]]].
  rewrite E. rewrite (loop_result_noop py_isalnum char_upper et_fromstring et_tostring)
    by exact Hnone.
  split; reflexivity.
Qed.

(** X14: when [outdir] or one of its parent paths is an existing file,
    [os.makedirs] raises [OSError] once the input exists, and nothing is
    created, read or written. *)
Theorem segment_kml_outdir_is_file (input outdir : ustr) (w : world) :
  is_file w input || is_dir w input = true ->
  is_nil outdir = false ->
  existsb (is_file w) (dir_chain outdir) = true ->
  segment_kml py_isalnum char_upper et_fromstring et_tostring input outdir w = (Raise OSError, w).
Proof.
  intros Hex Hnil Hch. unfold segment_kml.
  rewrite (bind_ok _ _ _ true w) by (unfold path_exists; rewrite Hex; reflexivity).
  cbv beta. cbn [negb].
  apply bind_raise. unfold os_makedirs. rewrite Hnil, Hch. reflexivity.
Qed.

End SegmentFacts.

(** ** Witnesses on concrete inputs *)

(** Witness for X1: "setor_001-a.b" is its own file name. *)
Lemma sanitize_filename_fixed_witness :
  sanitize_filename ascii_isalnum (u "setor_001-a.b") = u "setor_001-a.b".
Proof.
  apply (sanitize_filename_fixed ascii_isalnum ascii_isalnum_not_space).
  - discriminate.
  - simpl. lia.
  - vm_compute. repeat constructor.
Defined.

(** Witness for X2, at the input " a/b  c ". *)
Lemma sanitize_filename_idempotent_witness :
  sanitize_filename ascii_isalnum (sanitize_filename ascii_isalnum (u " a/b  c ")) =
  sanitize_filename ascii_isalnum (u " a/b  c ").
Proof.
  apply (sanitize_filename_idempotent ascii_isalnum ascii_isalnum_not_space (fun c H => H)).
Defined.

(** Witness for X3, at the input "a@b". *)
Lemma sanitize_filename_length_witness :
  List.length (sanitize_filename ascii_isalnum (u "a@b")) = Nat.min 180 3.
Proof.
  apply (sanitize_filename_length ascii_isalnum (u "a@b")).
  - discriminate.
  - vm_compute. repeat constructor.
Defined.

(** Witness for X4: "  001 " and "001" give the same file name. *)
Lemma sanitize_filename_surrounding_space_witness :
  sanitize_filename ascii_isalnum (u "  " ++ u "001" ++ u " ") =
  sanitize_filename ascii_isalnum (u "001").
Proof.
  apply sanitize_filename_surrounding_space; vm_compute; repeat constructor.
Defined.

(** Witness for X7. *)
Lemma wrap_document_injective_witness : u "<a/>" = u "<a/>".
Proof. apply (wrap_document_injective (u "<a/>") (u "<a/>")). reflexivity. Defined.

(** Witness for X8: the first file after the run on [world_collision]. *)
Lemma segment_kml_writes_in_outdir_witness :
  In (hd ([], []) (w_files (snd (segment_kml ascii_isalnum ascii_upper toy_fromstring toy_tostring
                                  (u "in.kml") (u "out") world_collision))))
     (w_files (snd (segment_kml ascii_isalnum ascii_upper toy_fromstring toy_tostring
                      (u "in.kml") (u "out") world_collision))) /\
  (In (hd ([], []) (w_files (snd (segment_kml ascii_isalnum ascii_upper toy_fromstring toy_tostring
                                   (u "in.kml") (u "out") world_collision))))
      (w_files world_collision) \/
   exists c doc e nm, lookup_file (u "in.kml") (w_files world_collision) = Some c /\
     toy_fromstring c = Some doc /\
     In e (findall_desc (kml "Placemark") doc) /\ has_geometry e = true /\
     nm = sanitize_filename ascii_isalnum (preferred_name ascii_upper e) /\
     nm <> [] /\ ~ In slash nm /\
     ((fst (hd ([], []) (w_files (snd (segment_kml ascii_isalnum ascii_upper toy_fromstring
                                        toy_tostring (u "in.kml") (u "out") world_collision))))
         = u "out" ++ nm ++ u ".kml" /\ last (u "out") 0%N = slash) \/
      fst (hd ([], []) (w_files (snd (segment_kml ascii_isalnum ascii_upper toy_fromstring
                                        toy_tostring (u "in.kml") (u "out") world_collision))))
        = u "out" ++ [slash] ++ nm ++ u ".kml")).
Proof.
  assert (Hin : In (hd ([], []) (w_files (snd (segment_kml ascii_isalnum ascii_upper toy_fromstring
                                                 toy_tostring (u "in.kml") (u "out")
                                                 world_collision))))
                   (w_files (snd (segment_kml ascii_isalnum ascii_upper toy_fromstring toy_tostring
                                    (u "in.kml") (u "out") world_collision))))
    by (vm_compute; left; reflexivity).
  split; [exact Hin|].
  apply (segment_kml_writes_in_outdir ascii_isalnum ascii_upper toy_fromstring toy_tostring
           ltac:(reflexivity) (u "in.kml") (u "out") world_collision _ Hin).
Defined.

(** Witness for X10: [pm_a]'s path holds the Output Document of [pm_b]. *)
Lemma segment_kml_every_feature_written_witness :
  exists e' d, In e' (findall_desc (kml "Placemark") doc_collision) /\ has_geometry e' = true /\
    out_path_of ascii_isalnum ascii_upper (u "out") e' =
      out_path_of ascii_isalnum ascii_upper (u "out") pm_a /\
    output_document ascii_upper toy_fromstring toy_tostring e' = Some d /\
    lookup_file (out_path_of ascii_isalnum ascii_upper (u "out") pm_a)
      (w_files (snd (segment_kml ascii_isalnum ascii_upper toy_fromstring toy_tostring
                       (u "in.kml") (u "out") world_collision))) = Some d.
Proof.
  apply (segment_kml_every_feature_written ascii_isalnum ascii_upper toy_fromstring toy_tostring
           (u "in.kml") (u "out") (toy_tostring doc_collision) doc_collision pm_a
           world_collision _ 2).
  - vm_compute. reflexivity.
  - vm_compute. reflexivity.
  - vm_compute. reflexivity.
  - vm_compute. left. reflexivity.
  - vm_compute. reflexivity.
Defined.

(** Witness for X11. *)
Lemma segment_kml_empty_outdir_witness :
  segment_kml ascii_isalnum ascii_upper toy_fromstring toy_tostring (u "in.kml") []
    world_collision = (Raise FileNotFoundError, world_collision).
Proof. apply segment_kml_empty_outdir. reflexivity. Defined.

(** Witness for X12: the input path "in" is a directory. *)
Lemma segment_kml_input_dir_witness :
  segment_kml ascii_isalnum ascii_upper toy_fromstring toy_tostring (u "in") (u "out")
    world_dir = (Raise OSError, mk_world [] [] (dir_chain (u "out") ++ [u "in"])).
Proof. apply (segment_kml_input_dir _ _ _ _ (u "in") (u "out") world_dir); reflexivity. Defined.

(** Witness for X13: the only Placemark of [doc_nogeo] has no geometry. *)
Lemma segment_kml_no_features_witness :
  fst (segment_kml ascii_isalnum ascii_upper toy_fromstring toy_tostring (u "in.kml") (u "out")
         world_nogeo) = Ok 0 /\
  w_files (snd (segment_kml ascii_isalnum ascii_upper toy_fromstring toy_tostring
                  (u "in.kml") (u "out") world_nogeo)) = w_files world_nogeo.
Proof.
  apply (segment_kml_no_features ascii_isalnum ascii_upper toy_fromstring toy_tostring
           (u "in.kml") (u "out") (toy_tostring doc_nogeo) doc_nogeo world_nogeo);
    vm_compute; reflexivity.
Defined.

(** Witness for X14: the output path "in.kml" is the source file itself. *)
Lemma segment_kml_outdir_is_file_witness :
  segment_kml ascii_isalnum ascii_upper toy_fromstring toy_tostring (u "in.kml") (u "in.kml")
    world_collision = (Raise OSError, world_collision).
Proof.
  apply segment_kml_outdir_is_file; vm_compute; reflexivity.
Defined.
